(** * V2V-OSM: vehicle placement, relation store and connectivity analysis

    A shallow embedding of [vehicles.py] and [main_sim_osm_pathloss.py].
    Floating-point numbers are represented by exact rationals ([Q]); numpy
    arrays by lists; the dictionary [Vehicles.idxs] by a [gmap] with string
    keys; Python exceptions by the [Raise] branch of [result]. *)

From Stdlib Require Import QArith Qabs Qround Lqa.
From stdpp Require Import base gmap strings list pretty.

Local Open Scope Z_scope.

(** ** Exceptions *)

Inductive pyerr :=
| KeyError (key : string)
| IndexError
| ValueError (msg : string)
| TypeError
| ZeroDivisionError.

Inductive result (A : Type) :=
| Ok (a : A)
| Raise (e : pyerr).
Arguments Ok {A} a.
Arguments Raise {A} e.

Global Instance result_bind : MBind result := λ A B f m,
  match m with
  | Ok a => f a
  | Raise e => Raise e
  end.
Global Instance result_ret : MRet result := λ A a, Ok a.

Fixpoint rmapM {A B} (f : A → result B) (l : list A) : result (list B) :=
  match l with
  | [] => Ok []
  | a :: l' => b ← f a ; bs ← rmapM f l' ; Ok (b :: bs)
  end.

(** ** numpy arrays *)

Module Np.

(** A value that numpy hands back is either a scalar or a 1-d array. *)
Inductive nd (A : Type) :=
| Scalar (a : A)
| Arr (l : list A).
Arguments Scalar {A} a.
Arguments Arr {A} l.

(** [np.size] *)
Definition size {A} (v : nd A) : nat :=
  match v with
  | Scalar _ => 1%nat
  | Arr l => length l
  end.

(** [np.zeros(n)] *)
Definition zeros {A} (zero : A) (n : nat) : list A := replicate n zero.

(** [np.arange(n)] *)
Definition arange (n : nat) : list Z := Z.of_nat <$> seq 0 n.

(** [np.invert] on a boolean array *)
Definition invert (m : list bool) : list bool := negb <$> m.

(** The entries of [a] at which the mask [m] holds. *)
Definition select {A} (a : list A) (m : list bool) : list A :=
  fst <$> filter (λ p, snd p = true) (zip a m).

(** [np.where(m)[0]]: the positions at which the mask holds *)
Definition where_ (m : list bool) : list Z := select (arange (length m)) m.

(** Position addressed by an integer index in an array of length [n];
    negative indices count from the end. *)
Definition norm_index (n : nat) (i : Z) : option nat :=
  if bool_decide (0 ≤ i < Z.of_nat n) then Some (Z.to_nat i)
  else if bool_decide (- Z.of_nat n ≤ i < 0) then Some (Z.to_nat (i + Z.of_nat n))
  else None.

(** An index is valid for an array of length [n]. *)
Definition valid_index (n : nat) (i : Z) : Prop := - Z.of_nat n ≤ i < Z.of_nat n.

(** A plain position of an array of length [n] (no counting from the end). *)
Definition plain_index (n : nat) (i : Z) : Prop := 0 ≤ i < Z.of_nat n.

(** [a[i]] for an integer [i] *)
Definition item {A} (a : list A) (i : Z) : result A :=
  match norm_index (length a) i with
  | Some k => match a !! k with Some x => Ok x | None => Raise IndexError end
  | None => Raise IndexError
  end.

(** [a[idx]] for an integer index array [idx] *)
Definition take {A} (a : list A) (idx : list Z) : result (list A) :=
  rmapM (item a) idx.

(** [a[idx]] where [idx] is whatever a key holds *)
Definition index {A} (a : list A) (idx : nd Z) : result (nd A) :=
  match idx with
  | Scalar i => x ← item a i ; Ok (Scalar x)
  | Arr l => xs ← take a l ; Ok (Arr xs)
  end.

(** [a[m]] for a boolean mask [m]: the mask has to be as long as [a] *)
Definition mask {A} (a : list A) (m : list bool) : result (list A) :=
  if bool_decide (length m = length a) then Ok (select a m)
  else Raise IndexError.

(** Broadcasting of a 1-d value array to [n] entries: an array of
    length [n] is taken as it is, an array of length 1 is repeated. *)
Definition broadcast {A} (values : list A) (n : nat) : result (list A) :=
  if bool_decide (length values = n) then Ok values
  else match values with
       | [v] => Ok (replicate n v)
       | _ => Raise (ValueError "shape mismatch: value array could not be broadcast to indexing result")
       end.

(** The writes of [a[idx] = vals], one after the other (a later write to
    the same position wins). *)
Fixpoint scatter {A} (a : list A) (pos : list nat) (vals : list A) : list A :=
  match pos, vals with
  | k :: pos', v :: vals' => scatter (<[k:=v]> a) pos' vals'
  | _, _ => a
  end.

Definition positions (n : nat) (idx : list Z) : result (list nat) :=
  rmapM (λ i, match norm_index n i with
              | Some k => Ok k
              | None => Raise IndexError
              end) idx.

(** [a[idx] = values] for an integer index array [idx] *)
Definition put {A} (a : list A) (idx : list Z) (values : list A) : result (list A) :=
  pos ← positions (length a) idx ;
  vals ← broadcast values (length idx) ;
  Ok (scatter a pos vals).

(** [a[idx] = values] where [idx] is whatever a key holds; a scalar
    index takes a one-element value array. *)
Definition assign {A} (a : list A) (idx : nd Z) (values : list A) : result (list A) :=
  match idx with
  | Scalar i =>
      match norm_index (length a) i, values with
      | None, _ => Raise IndexError
      | Some k, [v] => Ok (<[k:=v]> a)
      | Some _, _ => Raise (ValueError "setting an array element with a sequence.")
      end
  | Arr l => put a l values
  end.

(** [np.in1d(a, b)] *)
Definition in1d (a b : list Z) : list bool :=
  (λ x, bool_decide (x ∈ b)) <$> a.

(** [np.append(a, b)] *)
Definition append {A} (a b : list A) : list A := a ++ b.

End Np.

Export Np.

(** ** Geometry and graphs

    [shapely] points and line strings, and the [networkx] multigraph that
    [generate_vehs] builds for every vehicle. *)

Record Point := { px : Q; py : Q }.

(** A line string is the list of its vertices. *)
Abbreviation LineString := (list Point).

(** Street intersections carry integer identifiers, vehicle nodes the
    string ['v' + str(iteration)]. *)
Inductive node :=
| NInt (id : Z)
| NStr (name : string).

Global Instance node_eq_dec : EqDecision node.
Proof. solve_decision. Defined.

Record node_attr := { n_geometry : Point; n_x : Q; n_y : Q }.

Record edge_attr := { e_geometry : LineString; e_length : Q; e_is_veh_edge : bool }.

Module MultiGraph.

Record t := {
  node_veh : node;                              (* graph attribute *)
  nodes : list (node * option node_attr);
  edges : list (node * node * edge_attr)
}.

(** [nx.MultiGraph(node_veh=node)] *)
Definition empty (nv : node) : t :=
  {| node_veh := nv; nodes := []; edges := [] |}.

Definition has_node (g : t) (n : node) : bool :=
  bool_decide (n ∈ (fst <$> nodes g)).

(** [add_node(n, attr_dict=attr)]: a node that is already present keeps
    its place and takes the new attributes. *)
Definition add_node (g : t) (n : node) (attr : option node_attr) : t :=
  if has_node g n
  then {| node_veh := node_veh g;
          nodes := (λ p, if bool_decide (fst p = n) then (n, attr) else p) <$> nodes g;
          edges := edges g |}
  else {| node_veh := node_veh g;
          nodes := nodes g ++ [(n, attr)];
          edges := edges g |}.

(** [add_nodes_from(ns)]: nodes that are already present are left alone. *)
Definition add_nodes_from (g : t) (ns : list node) : t :=
  foldl (λ g n, if has_node g n then g
                else {| node_veh := node_veh g;
                        nodes := nodes g ++ [(n, None)];
                        edges := edges g |}) g ns.

(** [add_edge(u, v, attr_dict=attr)]: a multigraph keeps parallel edges. *)
Definition add_edge (g : t) (u v : node) (attr : edge_attr) : t :=
  let g' := add_nodes_from g [u; v] in
  {| node_veh := node_veh g'; nodes := nodes g'; edges := edges g' ++ [(u, v, attr)] |}.

Definition number_of_nodes (g : t) : nat := length (nodes g).
Definition number_of_edges (g : t) : nat := length (edges g).

End MultiGraph.

(** An entry of [graph_streets.edges(data=True)]: the two end nodes and the
    data dictionary, of which only the key ['geometry'] is read. *)
Record street := { s_u : node; s_v : node; s_geometry : option LineString }.

(** ** Floating-point values with infinity *)

Inductive xfloat :=
| Fin (q : Q)
| PInf.

(** ** The relation store: class [Vehicles] *)

Module Vehicles.

Record t := {
  count : nat;
  points : list Point;
  coordinates : list (Q * Q);
  graphs : option (list MultiGraph.t);
  pathlosses : list xfloat;
  distances : list Q;
  nlos : list bool;
  idxs : gmap string (nd Z)
}.

(** Modelled from the spec: [geometry.extract_point_array] ([geometry.py]
    is not part of the sources); the coordinate projection of the
    points. *)
Definition extract_point_array (pts : list Point) : list (Q * Q) :=
  (λ p, (px p, py p)) <$> pts.

(** [__init__(self, points, graphs=None, size=0)] *)
Definition init (pts : list Point) (gs : option (list MultiGraph.t)) (size : nat) : t :=
  {| count := length pts;
     points := pts;
     coordinates := extract_point_array pts;
     graphs := gs;
     pathlosses := zeros (Fin 0) size;
     distances := zeros 0%Q size;
     nlos := zeros false size;
     idxs := ∅ |}.

Definition allocate (self : t) (size : nat) : t :=
  {| count := count self;
     points := points self;
     coordinates := coordinates self;
     graphs := graphs self;
     pathlosses := zeros (Fin 0) size;
     distances := zeros 0%Q size;
     nlos := zeros false size;
     idxs := idxs self |}.

Definition add_key (self : t) (key : string) (value : nd Z) : t :=
  {| count := count self;
     points := points self;
     coordinates := coordinates self;
     graphs := graphs self;
     pathlosses := pathlosses self;
     distances := distances self;
     nlos := nlos self;
     idxs := <[key := value]> (idxs self) |}.

(** [self.idxs[key]] *)
Definition get_idxs (self : t) (key : string) : result (nd Z) :=
  match idxs self !! key with
  | Some v => Ok v
  | None => Raise (KeyError key)
  end.

Definition get (self : t) (key : option string) : result (nd (Q * Q)) :=
  match key with
  | None => Ok (Arr (coordinates self))
  | Some k =>
      if bool_decide (k = "all") then Ok (Arr (coordinates self))
      else i ← get_idxs self k ; index (coordinates self) i
  end.

Definition get_points (self : t) (key : option string) : result (nd Point) :=
  match key with
  | None => Ok (Arr (points self))
  | Some k => i ← get_idxs self k ; index (points self) i
  end.

(** [self.graphs] is [None] unless graphs were passed to the
    constructor; subscripting [None] is a [TypeError]. *)
Definition get_graph (self : t) (key : option string) : result (option (nd MultiGraph.t)) :=
  match key with
  | None => Ok (Arr <$> graphs self)
  | Some k =>
      i ← get_idxs self k ;
      match graphs self with
      | None => Raise TypeError
      | Some gs => g ← index gs i ; Ok (Some g)
      end
  end.

Definition with_pathlosses (self : t) (pl : list xfloat) : t :=
  {| count := count self;
     points := points self;
     coordinates := coordinates self;
     graphs := graphs self;
     pathlosses := pl;
     distances := distances self;
     nlos := nlos self;
     idxs := idxs self |}.

Definition with_distances (self : t) (ds : list Q) : t :=
  {| count := count self;
     points := points self;
     coordinates := coordinates self;
     graphs := graphs self;
     pathlosses := pathlosses self;
     distances := ds;
     nlos := nlos self;
     idxs := idxs self |}.

Definition set_pathlosses (self : t) (key : string) (values : list xfloat) : result t :=
  i ← get_idxs self key ;
  pl ← assign (pathlosses self) i values ;
  Ok (with_pathlosses self pl).

Definition get_pathlosses (self : t) (key : option string) : result (nd xfloat) :=
  match key with
  | None => Ok (Arr (pathlosses self))
  | Some k =>
      if bool_decide (k = "all") then Ok (Arr (pathlosses self))
      else i ← get_idxs self k ; index (pathlosses self) i
  end.

Definition set_distances (self : t) (key : string) (values : list Q) : result t :=
  i ← get_idxs self key ;
  ds ← assign (distances self) i values ;
  Ok (with_distances self ds).

Definition get_distances (self : t) (key : option string) : result (nd Q) :=
  match key with
  | None => Ok (Arr (distances self))
  | Some k => i ← get_idxs self k ; index (distances self) i
  end.

End Vehicles.

(** ** Random numbers

    The state of [np.random] is a stream of uniform samples from [[0, 1)]
    and a cursor into it. *)

Record rng := { samples : nat → Q; cursor : nat }.

(** [np.random.random(n)] *)
Definition random (g : rng) (n : nat) : list Q * rng :=
  (samples g <$> seq (cursor g) n,
   {| samples := samples g; cursor := (cursor g + n)%nat |}).

(** ** Float helpers *)

Definition Qsum (l : list Q) : Q := foldr Qplus 0%Q l.

(** [x < y] on floats *)
Definition Qltb (x y : Q) : bool :=
  match (x ?= y)%Q with
  | Lt => true
  | _ => false
  end.

(** The exact quotient [x / y], which a divisor zero does not have. *)
Definition fdiv (x y : Q) : option Q :=
  if Qeq_bool y 0 then None else Some (x / y)%Q.

(** ** Vehicle placement *)

Section placement.

(** The arithmetic of [choose_random_streets] and of [np.random.choice] is
    arithmetic on doubles, with rounding, overflow and [nan]; none of it is
    reproduced with rationals. A double that is not finite is [None].
    [py_sum] is [sum(lengths)], [np_divide x y] is [x / y];
    [p_invalid p] is the message of the error that [np.random.choice]
    raises for the probabilities [p], if it raises one (an entry that is
    [nan] or negative, a sum too far from 1), and [locate p u] is the
    index at which the sample [u] falls in the cumulative distribution
    of [p]. *)
Class Sampling := {
  py_sum : list Q → option Q;
  np_divide : Q → option Q → option Q;
  p_invalid : list (option Q) → option string;
  locate : list (option Q) → Q → Z
}.

Context {smp : Sampling}.

(** [np.zeros(n, dtype=int)] for an integer [n] *)
Definition np_zeros_int (n : Z) : result (list Z) :=
  if bool_decide (n < 0) then Raise (ValueError "negative dimensions are not allowed")
  else Ok (replicate (Z.to_nat n) 0).

(** [np.random.choice(a, size=size, p=p)] for an integer [a]: the checks
    of the arguments, then one index per sample. *)
Definition choice (a : nat) (size : Z) (p : list (option Q)) (g : rng)
  : result (list Z * rng) :=
  if bool_decide (a = 0%nat ∧ size ≠ 0)
  then Raise (ValueError "a must be greater than 0 unless no samples are taken")
  else if bool_decide (length p ≠ a) then Raise (ValueError "a and p must have same size")
  else match p_invalid p with
       | Some msg => Raise (ValueError msg)
       | None =>
           if bool_decide (size < 0)
           then Raise (ValueError "negative dimensions are not allowed")
           else
             let '(uniform_samples, g') := random g (Z.to_nat size) in
             Ok (locate p <$> uniform_samples, g')
       end.

Definition choose_random_streets (lengths : list Q) (count : Z) (g : rng)
  : result (list Z * rng) :=
  let total_length := py_sum lengths in
  let probs := (λ x, np_divide x total_length) <$> lengths in
  let count_streets := length lengths in
  indices ← np_zeros_int count ;
  choice count_streets count probs g.

(** The operations of [shapely] that the placement uses. [seg_len a b] is
    the length of the straight segment from [a] to [b]. *)
Class Shapely := {
  seg_len : Point → Point → Q;
  interpolate : LineString → Q → bool → Point;   (* line.interpolate(d, normalized) *)
  project : LineString → Point → Q;              (* line.project(p) *)
  distance : Point → LineString → Q              (* p.distance(line) *)
}.

Context `{Shapely}.

(** [line.length] *)
Fixpoint line_length (l : LineString) : Q :=
  match l with
  | a :: (b :: _) as tl => (seg_len a b + line_length tl)%Q
  | _ => 0%Q
  end.

(** [x] lies between [a] and [b], whichever of the two is smaller. *)
Definition between (a b x : Q) : bool :=
  (Qle_bool a x && Qle_bool x b) || (Qle_bool b x && Qle_bool x a).

(** [p] lies on the straight segment from [a] to [b]. *)
Definition on_segment (a b p : Point) : bool :=
  Qeq_bool ((px b - px a) * (py p - py a)) ((py b - py a) * (px p - px a))
  && between (px a) (px b) (px p) && between (py a) (py b) (py p).

(** Modelled from the spec: [geometry.split_line_at_point] ([geometry.py]
    is not part of the sources). The street geometry is split at the
    point into the part before it and the part after it; a point that is
    not on the line cannot be split at. *)
Fixpoint split_line (l : LineString) (p : Point) : option (LineString * LineString) :=
  match l with
  | a :: (b :: _) as tl =>
      if on_segment a b p then Some ([a; p], p :: tl)
      else match split_line tl p with
           | Some (before, after) => Some (a :: before, after)
           | None => None
           end
  | _ => None
  end.

Definition split_line_at_point (l : LineString) (p : Point)
  : result (LineString * LineString) :=
  match split_line l p with
  | Some r => Ok r
  | None => Raise (ValueError "Point has to be on the line")
  end.

Definition choose_random_point (street : LineString) (count : nat) (g : rng)
  : list Point * rng :=
  let '(distances, g') := random g count in
  ((λ dist, interpolate street dist true) <$> distances, g').

(** [street[2]['geometry']] *)
Definition street_geometry (s : street) : result LineString :=
  match s_geometry s with
  | Some l => Ok l
  | None => Raise (KeyError "geometry")
  end.

Fixpoint get_vehicles_loop (graph_streets : list street) (street_idxs : list Z) (g : rng)
  : result (list Point * rng) :=
  match street_idxs with
  | [] => Ok ([], g)
  | index :: rest =>
      street ← item graph_streets index ;
      street_geom ← street_geometry street ;
      let '(pts, g') := choose_random_point street_geom 1 g in
      p ← item pts 0 ;
      '(ps, g'') ← get_vehicles_loop graph_streets rest g' ;
      Ok (p :: ps, g'')
  end.

(** [street_idxs] is [None] when the caller passed neither streets nor
    points; iterating over [None] is a [TypeError]. *)
Definition get_vehicles_from_streets (graph_streets : list street)
    (street_idxs : option (list Z)) (g : rng) : result (list Point * rng) :=
  match street_idxs with
  | None => Raise TypeError
  | Some idxs => get_vehicles_loop graph_streets idxs g
  end.

(** Tuple order on [(distance, index)] *)
Definition tuple_lt (a b : Q * Z) : bool :=
  match (a.1 ?= b.1)%Q with
  | Lt => true
  | Eq => bool_decide (a.2 < b.2)
  | Gt => false
  end.

(** [min] of a non-empty list of tuples: the first smallest one *)
Definition tuple_min (l : list (Q * Z)) : result (Q * Z) :=
  match l with
  | [] => Raise (ValueError "min() arg is an empty sequence")
  | x :: l' => Ok (foldl (λ m y, if tuple_lt y m then y else m) x l')
  end.

Fixpoint streets_loop (graph_streets : list street) (todo : list Point)
  : result (list Z * list Point) :=
  match todo with
  | [] => Ok ([], [])
  | point_veh :: rest =>
      geoms ← rmapM street_geometry graph_streets ;
      let distance_list :=
        zip (distance point_veh <$> geoms) (arange (length geoms)) in
      '(_, idx) ← tuple_min distance_list ;
      street ← item graph_streets idx ;
      current_street ← street_geometry street ;
      let correction := project current_street point_veh in
      let p' := interpolate current_street correction false in
      '(idxs, ps) ← streets_loop graph_streets rest ;
      Ok (idx :: idxs, p' :: ps)
  end.

(** Returns the street indices and the points moved onto their streets
    (the source overwrites the entries of [points_vehs] in place). *)
Definition get_streets_from_vehicles (graph_streets : list street)
    (points_vehs : list Point) : result (list Z * list Point) :=
  streets_loop graph_streets points_vehs.

(** The graph of the vehicle with number [iteration] on [street]. *)
Definition veh_graph (iteration : nat) (street : street) (point_veh : Point)
  : result MultiGraph.t :=
  street_geom ← street_geometry street ;
  let node := NStr ("v" +:+ pretty iteration) in
  let graph_iter := MultiGraph.empty node in
  let node_attr := {| n_geometry := point_veh; n_x := px point_veh; n_y := py point_veh |} in
  let graph_iter := MultiGraph.add_node graph_iter node (Some node_attr) in
  let graph_iter := MultiGraph.add_nodes_from graph_iter [s_u street; s_v street] in
  '(street_before, street_after) ← split_line_at_point street_geom point_veh ;
  let edge_attr := {| e_geometry := street_before;
                      e_length := line_length street_before;
                      e_is_veh_edge := true |} in
  let graph_iter := MultiGraph.add_edge graph_iter node (s_u street) edge_attr in
  let edge_attr := {| e_geometry := street_after;
                      e_length := line_length street_after;
                      e_is_veh_edge := true |} in
  let graph_iter := MultiGraph.add_edge graph_iter node (s_v street) edge_attr in
  Ok graph_iter.

Fixpoint generate_loop (graph_streets : list street) (points_vehs : list Point)
    (iteration : nat) (street_idxs : list Z) : result (list MultiGraph.t) :=
  match street_idxs with
  | [] => Ok []
  | index :: rest =>
      street ← item graph_streets index ;
      point_veh ← item points_vehs (Z.of_nat iteration) ;
      graph_iter ← veh_graph iteration street point_veh ;
      gs ← generate_loop graph_streets points_vehs (S iteration) rest ;
      Ok (graph_iter :: gs)
  end.

Definition generate_vehs (graph_streets : list street)
    (street_idxs : option (list Z)) (points_vehs : option (list Point)) (g : rng)
  : result (Vehicles.t * rng) :=
  '(street_idxs, points_vehs, g) ←
    match points_vehs with
    | None =>
        '(pts, g') ← get_vehicles_from_streets graph_streets street_idxs g ;
        Ok (street_idxs, pts, g')
    | Some pts =>
        match street_idxs with
        | None =>
            '(idxs, pts') ← get_streets_from_vehicles graph_streets pts ;
            Ok (Some idxs, pts', g)
        | Some _ => Ok (street_idxs, pts, g)
        end
    end ;
  match street_idxs with
  | None => Raise TypeError
  | Some idxs =>
      graphs_vehs ← generate_loop graph_streets points_vehs 0 idxs ;
      Ok (Vehicles.init points_vehs (Some graphs_vehs) 0, g)
  end.

End placement.

(** ** scipy and networkx *)

Section pairwise.

Context {A B : Type}.
Variable f : A → A → B.

(** The condensed layout of [scipy.spatial.distance.pdist]: the entries
    for the pairs [(0,1), (0,2), ..., (0,n-1), (1,2), ...]. *)
Fixpoint condensed_of (X : list A) : list B :=
  match X with
  | [] => []
  | x :: X' => (f x <$> X') ++ condensed_of X'
  end.

End pairwise.

(** Offset of row [i] in the condensed layout of a [d × d] matrix. *)
Fixpoint row_start (d i : nat) : nat :=
  match i with
  | O => O
  | S i' => (row_start d i' + (d - 1 - i'))%nat
  end.

(** Condensed position of the pair [(i, j)], [i < j < d]. *)
Definition condensed (d i j : nat) : nat := (row_start d i + (j - i - 1))%nat.

(** [int(np.ceil(np.sqrt(m)))] *)
Definition ceil_sqrt (m : nat) : nat :=
  let r := Nat.sqrt m in
  if bool_decide (r * r = m)%nat then r else S r.

(** [dist.squareform(v)] for a vector [v]: the symmetric matrix with zero
    diagonal; the empty vector gives the [1 × 1] zero matrix. *)
Definition squareform (v : list bool) : result (list (list bool)) :=
  match v with
  | [] => Ok [[false]]
  | _ =>
      let d := ceil_sqrt (length v * 2) in
      if bool_decide (d * (d - 1) ≠ length v * 2)%nat
      then Raise (ValueError "Incompatible vector size.")
      else Ok ((λ i, (λ j,
                 if bool_decide (i < j)%nat then default false (v !! condensed d i j)
                 else if bool_decide (j < i)%nat then default false (v !! condensed d j i)
                 else false) <$> seq 0 d) <$> seq 0 d)
  end.

Module Graph.

(** [nx.from_numpy_matrix(M)]: the nodes are [0 .. order-1], and [i] and
    [j] are joined when [M[i][j]] is set. *)
Record t := { matrix : list (list bool) }.

Definition from_numpy_matrix (M : list (list bool)) : t := {| matrix := M |}.

Definition order (g : t) : nat := length (matrix g).

Definition adj (g : t) (i j : nat) : bool :=
  default false (row ← matrix g !! i ; row !! j).

Definition node_list (g : t) : list nat := seq 0 (order g).

(** One more level of a breadth-first search: the nodes seen so far and
    their neighbours. *)
Definition grow (g : t) (seen : list nat) : list nat :=
  filter (λ u, u ∈ seen ∨ Exists (λ w, adj g w u = true) seen) (node_list g).

(** The nodes reached from [source] ([_plain_bfs]); no shortest path is
    longer than the number of nodes. *)
Definition plain_bfs (g : t) (source : nat) : list nat :=
  Nat.iter (order g) (grow g) [source].

Fixpoint components_loop (g : t) (todo seen : list nat) : list (list nat) :=
  match todo with
  | [] => []
  | v :: todo' =>
      if bool_decide (v ∈ seen) then components_loop g todo' seen
      else let c := plain_bfs g v in
           c :: components_loop g todo' (seen ++ c)
  end.

(** [nx.connected_components(G)] *)
Definition connected_components (g : t) : list (list nat) :=
  components_loop g (node_list g) [].

(** [max(clusters, key=len)]: the first cluster of the largest size *)
Definition max_by_len (clusters : list (list nat)) : result (list nat) :=
  match clusters with
  | [] => Raise (ValueError "max() arg is an empty sequence")
  | c :: cs => Ok (foldl (λ m x, if bool_decide (length m < length x)%nat then x else m) c cs)
  end.

End Graph.

(** ** The simulation driver *)

(** The street graph: node coordinates and the list of edges. *)
Record street_graph := {
  sg_nodes : list (node * (Q * Q));
  sg_edges : list street
}.

(** [osmnx_addons.add_geometry]: an edge without a geometry gets the
    straight line between its end nodes. *)
Definition node_coord (g : street_graph) (n : node) : result (Q * Q) :=
  match list_find (λ p, p.1 = n) (sg_nodes g) with
  | Some (_, (_, c)) => Ok c
  | None => Raise (KeyError "node")
  end.

Definition add_geometry (streets : street_graph) : result street_graph :=
  es ← rmapM (λ e,
        match s_geometry e with
        | Some _ => Ok e
        | None =>
            c1 ← node_coord streets (s_u e) ;
            c2 ← node_coord streets (s_v e) ;
            Ok {| s_u := s_u e; s_v := s_v e;
                  s_geometry := Some [ {| px := c1.1; py := c1.2 |};
                                       {| px := c2.1; py := c2.2 |} ] |}
        end) (sg_edges streets) ;
  Ok {| sg_nodes := sg_nodes streets; sg_edges := es |}.

(** [int(x)]: truncation towards zero *)
Definition py_int (x : Q) : Z :=
  if Qle_bool 0 x then Qfloor x else Qceiling x.

(** [round(x)]: to the nearest integer, ties to the even one *)
Definition py_round (x : Q) : Z :=
  let f := Qfloor x in
  match (x - inject_Z f ?= 1 # 2)%Q with
  | Lt => f
  | Gt => f + 1
  | Eq => if Z.even f then f else f + 1
  end.

(** Python's [max(a, b)] *)
Definition py_max (a b : Q) : Q := if Qltb a b then b else a.

(** The modules [propagation], [pathloss] and [geometry] and the numeric
    routines of numpy and scipy are not part of the sources; the driver is
    written against their interfaces. *)
Class Externals := {
  buildings : Type;
  wave_graph : Type;
  (* propagation *)
  add_edges_if_los : street_graph → buildings → wave_graph;
  veh_cons_are_nlos : nd Point → nd Point → buildings → list bool;
  veh_cons_are_nlos_all : nd Point → buildings → option Q → list bool;
  veh_cons_are_olos : nd Point → nd Point → Q → list bool;
  check_if_cons_orthogonal :
    wave_graph → option (nd MultiGraph.t) → option (nd MultiGraph.t) → Q
    → list bool * list (Q * Q);
  (* pathloss.Pathloss, applied entry by entry *)
  pathloss_olos : Q → Q;
  pathloss_los : Q → Q;
  pathloss_nlos : Q → Q → Q;
  (* geometry *)
  get_street_lengths : street_graph → list Q;
  find_center_veh : nd (Q * Q) → Z;
  (* numpy, scipy *)
  np_sqrt : Q → Q;
  np_pi : Q;
  euclidean : Q * Q → Q * Q → Q
}.

(** The network dictionary that [prepare_network] returns. *)
Record network (B W : Type) := {
  graph_streets : street_graph;
  graph_streets_wave : W;
  gdf_buildings : B;
  vehs : Vehicles.t
}.
Arguments graph_streets {B W} _.
Arguments graph_streets_wave {B W} _.
Arguments gdf_buildings {B W} _.
Arguments vehs {B W} _.

(** What [load_place] or [download_place] return. *)
Record place_data (B : Type) := {
  data_streets : street_graph;
  data_buildings : B;
  data_boundary_area : Q
}.
Arguments data_streets {B} _.
Arguments data_buildings {B} _.
Arguments data_boundary_area {B} _.

Section driver.

Context {smp : Sampling} {shp : Shapely} {ext : Externals}.

(** [prepare_network] from the loaded data on. *)
Definition prepare_network (data : place_data buildings) (density_veh : Q)
    (density_type : string) (g : rng)
  : result (network buildings wave_graph * rng) :=
  graph_streets ← add_geometry (data_streets data) ;
  let gdf_buildings := data_buildings data in
  let graph_streets_wave := add_edges_if_los graph_streets gdf_buildings in
  let street_lengths := get_street_lengths graph_streets in
  count_veh ←
    (if bool_decide (density_type = "absolute") then Ok (py_int density_veh)
     else if bool_decide (density_type = "length")
     then Ok (py_round (density_veh * Qsum street_lengths))
     else if bool_decide (density_type = "area")
     then Ok (py_round (density_veh * data_boundary_area data))
     else Raise (ValueError "Density type not supported")) ;
  '(rand_street_idxs, g) ←
    choose_random_streets street_lengths count_veh g ;
  '(vehs, g) ← generate_vehs (sg_edges graph_streets) (Some rand_street_idxs) None g ;
  Ok ({| graph_streets := graph_streets;
         graph_streets_wave := graph_streets_wave;
         gdf_buildings := gdf_buildings;
         vehs := vehs |}, g).

(** [a < bound], entry by entry *)
Definition lt_all (a : list Q) (bound : Q) : list bool :=
  (λ x, Qltb x bound) <$> a.

Definition xlt (x : xfloat) (bound : Q) : bool :=
  match x with
  | Fin q => Qltb q bound
  | PInf => false
  end.

(** [dist.pdist(coordinates)] *)
Definition pdist (X : list (Q * Q)) : list Q := condensed_of euclidean X.

(** The in-range flags of all pairs, as [main_sim_multi] derives them
    from the NLOS flags and the distances. *)
Definition in_range_flags (count_cond : nat) (is_nlos : list bool)
    (distances : list Q) (max_dist_olos_los max_dist_nlos : Q) : result (list bool) :=
  let is_olos_los := invert is_nlos in
  let idxs_olos_los := where_ is_olos_los in
  let idxs_nlos := where_ is_nlos in
  d_olos_los ← take distances idxs_olos_los ;
  idxs_in_range_olos_los ← mask idxs_olos_los (lt_all d_olos_los max_dist_olos_los) ;
  d_nlos ← take distances idxs_nlos ;
  idxs_in_range_nlos ← mask idxs_nlos (lt_all d_nlos max_dist_nlos) ;
  let idxs_in_range := append idxs_in_range_olos_los idxs_in_range_nlos in
  Ok (in1d (arange count_cond) idxs_in_range).

Definition main_sim_multi (net : network buildings wave_graph)
    (max_dist_olos_los max_dist_nlos : Q)
  : result (Q * Vehicles.t) :=
  let vehs := vehs net in
  let gdf_buildings := gdf_buildings net in
  let count_veh := Vehicles.count vehs in
  let max_dist := py_max max_dist_nlos max_dist_olos_los in
  let count_cond := (count_veh * (count_veh - 1) / 2)%nat in
  let vehs := Vehicles.allocate vehs count_cond in
  pts ← Vehicles.get_points vehs None ;
  let is_nlos := veh_cons_are_nlos_all pts gdf_buildings (Some max_dist) in
  let distances := pdist (Vehicles.coordinates vehs) in
  is_in_range ← in_range_flags count_cond is_nlos distances max_dist_olos_los max_dist_nlos ;
  is_in_range_matrix ← squareform is_in_range ;
  let graph_cons := Graph.from_numpy_matrix is_in_range_matrix in
  let clusters := Graph.connected_components graph_cons in
  cluster_max ← Graph.max_by_len clusters ;
  net_connectivity ←
    (if bool_decide (count_veh = 0%nat) then Raise ZeroDivisionError
     else Ok (inject_Z (Z.of_nat (length cluster_max)) / inject_Z (Z.of_nat count_veh))%Q) ;
  let cluster_max_nodes := Z.of_nat <$> cluster_max in
  let vehs := Vehicles.add_key vehs "cluster_max" (Arr cluster_max_nodes) in
  not_cluster_max_nodes ←
    mask (arange count_veh) (invert (in1d (arange count_veh) cluster_max_nodes)) ;
  let vehs := Vehicles.add_key vehs "not_cluster_max" (Arr not_cluster_max_nodes) in
  Ok (net_connectivity, vehs).

(** [a[:, k]] needs a 2-d array, [a[k]] of a coordinate pair its entry. *)
Definition rows {A} (v : nd A) : result (list A) :=
  match v with
  | Arr l => Ok l
  | Scalar _ => Raise IndexError
  end.

Definition scalar {A} (v : nd A) : result A :=
  match v with
  | Scalar a => Ok a
  | Arr _ => Raise (ValueError "operands could not be broadcast together")
  end.

(** [np.sqrt((xs - x0)**2 + (ys - y0)**2)], entry by entry *)
Definition np_hypot (p q : Q * Q) : Q :=
  np_sqrt ((p.1 - q.1) ^ 2 + (p.2 - q.2) ^ 2)%Q.

Definition neg_all (a : list Q) : list xfloat := (λ x, Fin (- x)) <$> a.

Definition main_sim (net : network buildings wave_graph) (max_pl : Q)
  : result Vehicles.t :=
  let vehs := vehs net in
  let graph_streets_wave := graph_streets_wave net in
  let gdf_buildings := gdf_buildings net in
  let count_veh := Vehicles.count vehs in
  let vehs := Vehicles.allocate vehs count_veh in
  (* Find center vehicle *)
  coords ← Vehicles.get vehs None ;
  let idx_center_veh := find_center_veh coords in
  let idxs_other_vehs :=
    where_ ((λ i, bool_decide (i ≠ idx_center_veh)) <$> arange count_veh) in
  let vehs := Vehicles.add_key vehs "center" (Scalar idx_center_veh) in
  let vehs := Vehicles.add_key vehs "other" (Arr idxs_other_vehs) in
  (* Determine propagation conditions *)
  p_center ← Vehicles.get_points vehs (Some "center") ;
  p_other ← Vehicles.get_points vehs (Some "other") ;
  let is_nlos := veh_cons_are_nlos p_center p_other gdf_buildings in
  idxs_nlos ← mask idxs_other_vehs is_nlos ;
  let vehs := Vehicles.add_key vehs "nlos" (Arr idxs_nlos) in
  let is_olos_los := invert is_nlos in
  idxs_olos_los ← mask idxs_other_vehs is_olos_los ;
  let vehs := Vehicles.add_key vehs "olos_los" (Arr idxs_olos_los) in
  (* Determine OLOS and LOS *)
  p_center ← Vehicles.get_points vehs (Some "center") ;
  p_olos_los ← Vehicles.get_points vehs (Some "olos_los") ;
  let is_olos := veh_cons_are_olos p_center p_olos_los 2 in
  let is_los := invert is_olos in
  k ← Vehicles.get_idxs vehs "olos_los" ; k ← rows k ;
  idxs_olos ← mask k is_olos ;
  let vehs := Vehicles.add_key vehs "olos" (Arr idxs_olos) in
  k ← Vehicles.get_idxs vehs "olos_los" ; k ← rows k ;
  idxs_los ← mask k is_los ;
  let vehs := Vehicles.add_key vehs "los" (Arr idxs_los) in
  (* Determine orthogonal and parallel *)
  g_center ← Vehicles.get_graph vehs (Some "center") ;
  g_nlos ← Vehicles.get_graph vehs (Some "nlos") ;
  let '(is_orthogonal, coords_intersections) :=
    check_if_cons_orthogonal graph_streets_wave g_center g_nlos np_pi in
  let is_parallel := invert is_orthogonal in
  k ← Vehicles.get_idxs vehs "nlos" ; k ← rows k ;
  idxs_orth ← mask k is_orthogonal ;
  let vehs := Vehicles.add_key vehs "orth" (Arr idxs_orth) in
  k ← Vehicles.get_idxs vehs "nlos" ; k ← rows k ;
  idxs_par ← mask k is_parallel ;
  let vehs := Vehicles.add_key vehs "par" (Arr idxs_par) in
  (* Pathlosses for OLOS and LOS *)
  c_olos_los ← Vehicles.get vehs (Some "olos_los") ; c_olos_los ← rows c_olos_los ;
  c_center ← Vehicles.get vehs (Some "center") ; c_center ← scalar c_center ;
  let distances_olos_los := (λ c, np_hypot c c_center) <$> c_olos_los in
  d_olos ← mask distances_olos_los is_olos ;
  let pathlosses_olos := neg_all (pathloss_olos <$> d_olos) in
  vehs ← Vehicles.set_pathlosses vehs "olos" pathlosses_olos ;
  d_los ← mask distances_olos_los is_los ;
  let pathlosses_los := neg_all (pathloss_los <$> d_los) in
  vehs ← Vehicles.set_pathlosses vehs "los" pathlosses_los ;
  (* Pathlosses for NLOS orthogonal *)
  c_orth ← Vehicles.get vehs (Some "orth") ; c_orth ← rows c_orth ;
  x_orth ← mask coords_intersections is_orthogonal ;
  let distances_orth_tx := zip_with np_hypot c_orth x_orth in
  c_center ← Vehicles.get vehs (Some "center") ; c_center ← scalar c_center ;
  let distances_orth_rx := (λ x, np_hypot c_center x) <$> x_orth in
  let pathlosses_orth :=
    Fin <$> zip_with pathloss_nlos distances_orth_rx distances_orth_tx in
  vehs ← Vehicles.set_pathlosses vehs "orth" pathlosses_orth ;
  let pathlosses_par := replicate (length (filter (λ b, b = true) is_parallel)) PInf in
  vehs ← Vehicles.set_pathlosses vehs "par" pathlosses_par ;
  (* Determine in range / out of range *)
  pl_other ← Vehicles.get_pathlosses vehs (Some "other") ; pl_other ← rows pl_other ;
  let idxs_in_range := (λ x, xlt x max_pl) <$> pl_other in
  let idxs_out_range := invert idxs_in_range in
  k ← Vehicles.get_idxs vehs "other" ; k ← rows k ;
  in_range ← mask k idxs_in_range ;
  let vehs := Vehicles.add_key vehs "in_range" (Arr in_range) in
  k ← Vehicles.get_idxs vehs "other" ; k ← rows k ;
  out_range ← mask k idxs_out_range ;
  let vehs := Vehicles.add_key vehs "out_range" (Arr out_range) in
  Ok vehs.

End driver.

(** ** The NLOS classifier of all-pairs mode *)

Section nlos_all.

Context {ext : Externals}.

(** The geometry test: the straight segment between two vehicle points
    crosses a building. *)
Variable intersects : Point → Point → buildings → bool.

Definition point_coord (p : Point) : Q * Q := (px p, py p).

(** A pair whose straight-line distance exceeds the cutoff skips the
    geometry test and counts as NLOS. *)
Definition pair_is_nlos (b : buildings) (max_dist : option Q) (p q : Point) : bool :=
  match max_dist with
  | Some m =>
      if Qltb m (euclidean (point_coord p) (point_coord q)) then true
      else intersects p q b
  | None => intersects p q b
  end.

(** Modelled from the spec: [propagation.veh_cons_are_nlos_all]
    ([propagation.py] is not part of the sources). One flag per
    unordered pair, in the order of [pdist]. *)
Definition veh_cons_are_nlos_all_spec (pts : nd Point) (b : buildings)
    (max_dist : option Q) : list bool :=
  match pts with
  | Arr l => condensed_of (pair_is_nlos b max_dist) l
  | Scalar _ => []
  end.

(** The externals with this classifier; [use_cutoff = false] runs every
    pair through the geometry test. *)
Definition with_nlos_all_spec (use_cutoff : bool) : Externals :=
  {| buildings := buildings;
     wave_graph := wave_graph;
     add_edges_if_los := add_edges_if_los;
     veh_cons_are_nlos := veh_cons_are_nlos;
     veh_cons_are_nlos_all := λ pts b max_dist,
       veh_cons_are_nlos_all_spec pts b (if use_cutoff then max_dist else None);
     veh_cons_are_olos := veh_cons_are_olos;
     check_if_cons_orthogonal := check_if_cons_orthogonal;
     pathloss_olos := pathloss_olos;
     pathloss_los := pathloss_los;
     pathloss_nlos := pathloss_nlos;
     get_street_lengths := get_street_lengths;
     find_center_veh := find_center_veh;
     np_sqrt := np_sqrt;
     np_pi := np_pi;
     euclidean := euclidean |}.

End nlos_all.

(** ** A small town

    Concrete instances of the interfaces and a street graph of three
    straight streets, on which the driver can be run. *)

Module Example.

Definition flags_of {A} (f : A → bool) (ps : nd A) : list bool :=
  match ps with
  | Arr l => f <$> l
  | Scalar p => [f p]
  end.

Definition manhattan (p q : Q * Q) : Q := (Qabs (p.1 - q.1) + Qabs (p.2 - q.2))%Q.

(** Straight streets are measured and interpolated exactly. *)
Definition shapely : Shapely := {|
  seg_len := λ a b, manhattan (px a, py a) (px b, py b);
  interpolate := λ l d normalized,
    match l with
    | [a; b] =>
        let t := if normalized then d
                 else match fdiv d (manhattan (px a, py a) (px b, py b)) with
                      | Some t => t
                      | None => 0%Q
                      end in
        {| px := Qred (px a + t * (px b - px a)); py := Qred (py a + t * (py b - py a)) |}
    | a :: _ => a
    | [] => {| px := 0; py := 0 |}
    end;
  project := λ l p,
    match l with
    | a :: _ => manhattan (px a, py a) (px p, py p)
    | [] => 0%Q
    end;
  distance := λ p l,
    match l with
    | a :: _ => manhattan (px a, py a) (px p, py p)
    | [] => 0%Q
    end
|}.

(** A vehicle west of the center line is behind a building, a vehicle
    south of it is grazed; a pathloss grows with the distance. *)
Definition externals : Externals := {|
  buildings := unit;
  wave_graph := unit;
  add_edges_if_los := λ _ _, ();
  veh_cons_are_nlos := λ _ ps _, flags_of (λ p, Qltb (px p) 0) ps;
  veh_cons_are_nlos_all := λ ps _ _,
    match ps with
    | Arr l => condensed_of (λ p q, Qltb (px p) 0 || Qltb (px q) 0) l
    | Scalar _ => []
    end;
  veh_cons_are_olos := λ _ ps _, flags_of (λ p, Qltb (py p) 0) ps;
  check_if_cons_orthogonal := λ _ _ gs _,
    match gs with
    | Some g =>
        (flags_of (λ g, bool_decide (MultiGraph.number_of_nodes g = 3%nat)) g,
         replicate (size g) (0%Q, 0%Q))
    | None => ([], [])
    end;
  pathloss_olos := λ d, (40 + Qabs d)%Q;
  pathloss_los := λ d, (30 + Qabs d)%Q;
  pathloss_nlos := λ d1 d2, (60 + Qabs d1 + Qabs d2)%Q;
  get_street_lengths := λ g,
    (λ s, match s_geometry s with
          | Some l => @line_length shapely l
          | None => 0%Q
          end) <$> sg_edges g;
  find_center_veh := λ _, 0;
  np_sqrt := λ x, inject_Z (Z.sqrt (Qfloor x));
  np_pi := 3%Q;
  euclidean := manhattan
|}.

Definition pt (x y : Q) : Point := {| px := x; py := y |}.

(** Three streets out of the crossing [1]: to the east, to the south
    and to the south-west; the last one has no geometry of its own. *)
Definition streets : street_graph := {|
  sg_nodes := [(NInt 1, (0, 0)); (NInt 2, (400, 0)); (NInt 3, (0, -200));
               (NInt 4, (-200, -200))]%Q;
  sg_edges := [ {| s_u := NInt 1; s_v := NInt 2;
                   s_geometry := Some [pt 0 0; pt 400 0] |};
                {| s_u := NInt 1; s_v := NInt 3;
                   s_geometry := Some [pt 0 0; pt 0 (-200)] |};
                {| s_u := NInt 1; s_v := NInt 4; s_geometry := None |} ]
|}.

Definition data : place_data unit :=
  {| data_streets := streets; data_buildings := (); data_boundary_area := 160000 |}.

(** Uniform samples 1/16, 3/16, ..., 15/16, 1/16, ... *)
Definition gen : rng :=
  {| samples := λ k, (Z.of_nat (2 * (k mod 8) + 1) # 16)%Q; cursor := 0 |}.

(** An idealised sampler that computes with exact rationals: the
    probabilities have to be nonnegative numbers that add up to 1, and a
    sample falls on the first street whose running total exceeds it. *)
Fixpoint cumsum_from (acc : Q) (l : list Q) : list Q :=
  match l with
  | [] => []
  | x :: l' => (acc + x)%Q :: cumsum_from (acc + x)%Q l'
  end.

Definition exact_invalid (p : list (option Q)) : option string :=
  match mapM id p with
  | None => Some "probabilities contain NaN"
  | Some ps =>
      if existsb (λ x, negb (Qle_bool 0 x)) ps
      then Some "probabilities are not non-negative"
      else if negb (Qeq_bool (Qsum ps) 1)
      then Some "probabilities do not sum to 1"
      else None
  end.

Definition exact_locate (p : list (option Q)) (u : Q) : Z :=
  let cdf := cumsum_from 0 (default 0%Q <$> p) in
  Z.of_nat (length (filter (λ c, Qle_bool c u = true) cdf)).

Definition sampling : Sampling := {|
  py_sum := λ l, Some (Qsum l);
  np_divide := λ x y,
    match y with
    | Some y => fdiv x y
    | None => Some 0%Q
    end;
  p_invalid := exact_invalid;
  locate := exact_locate
|}.

(** Six vehicles on the three streets. *)
Definition prepared : result (network unit unit * rng) :=
  @prepare_network sampling shapely externals data 6 "absolute" gen.

Definition net : network unit unit :=
  match prepared with
  | Ok (net, _) => net
  | Raise _ =>
      {| graph_streets := streets; graph_streets_wave := (); gdf_buildings := ();
         vehs := Vehicles.init [] None 0 |}
  end.

(** A street and a loop that starts and ends at the crossing [1], with one
    vehicle on each. *)
Definition loop_streets : list street :=
  [ {| s_u := NInt 1; s_v := NInt 2; s_geometry := Some [pt 0 0; pt 400 0] |};
    {| s_u := NInt 1; s_v := NInt 1;
       s_geometry := Some [pt 0 0; pt 50 0; pt 50 50; pt 0 0] |} ].

Definition placed : result (Vehicles.t * rng) :=
  @generate_vehs shapely loop_streets (Some [0; 1]) (Some [pt 100 0; pt 50 20]) gen.

Definition placed_at_random : result (Vehicles.t * rng) :=
  @generate_vehs shapely loop_streets (Some [0; 0; 1]) None gen.

(** The store and the generator of a successful result. *)
Definition store_of (r : result (Vehicles.t * rng)) : Vehicles.t :=
  match r with
  | Ok (v, _) => v
  | Raise _ => Vehicles.init [] None 0
  end.

Definition rng_of (r : result (Vehicles.t * rng)) : rng :=
  match r with
  | Ok (_, g) => g
  | Raise _ => gen
  end.

End Example.

(** ** Vocabulary of the statements *)

(** What the constructor and [generate_vehs] establish: one point, one
    coordinate pair and one graph per vehicle. *)
Definition store_ok (v : Vehicles.t) : Prop :=
  length (Vehicles.points v) = Vehicles.count v
  ∧ length (Vehicles.coordinates v) = Vehicles.count v
  ∧ ∃ gs, Vehicles.graphs v = Some gs ∧ length gs = Vehicles.count v.

(** The classifiers return one flag (and one intersection) per connection
    they are asked about. *)
Class ExternalsShape (ext : Externals) : Prop := {
  nlos_shape : ∀ c ps b, length (veh_cons_are_nlos c ps b) = size ps;
  olos_shape : ∀ c ps m, length (veh_cons_are_olos c ps m) = size ps;
  orth_shape : ∀ w gc gs a,
    length (check_if_cons_orthogonal w gc (Some gs) a).1 = size gs
    ∧ length (check_if_cons_orthogonal w gc (Some gs) a).2 = size gs
}.

(** Exactly one of four propositions holds. *)
Definition exactly_one (P1 P2 P3 P4 : Prop) : Prop :=
  (P1 ∧ ¬ P2 ∧ ¬ P3 ∧ ¬ P4) ∨ (¬ P1 ∧ P2 ∧ ¬ P3 ∧ ¬ P4)
  ∨ (¬ P1 ∧ ¬ P2 ∧ P3 ∧ ¬ P4) ∨ (¬ P1 ∧ ¬ P2 ∧ ¬ P3 ∧ P4).

(** * Properties *)

(** ** Array access *)

Section arrays.

Context {A : Type}.
Implicit Types (a : list A) (idx : list Z) (pos : list nat).

Lemma norm_index_valid n i :
  valid_index n i → ∃ k, norm_index n i = Some k ∧ (k < n)%nat.
Proof.
  unfold valid_index, norm_index. intros Hi.
  repeat case_bool_decide; try lia; eexists; (split; [done|lia]).
Qed.

Lemma norm_index_lt n i k : norm_index n i = Some k → (k < n)%nat.
Proof.
  unfold norm_index. repeat case_bool_decide; intros; simplify_eq; lia.
Qed.

Lemma norm_index_of_nat n k : (k < n)%nat → norm_index n (Z.of_nat k) = Some k.
Proof.
  intros Hk. unfold norm_index. rewrite bool_decide_true by lia.
  by rewrite Nat2Z.id.
Qed.

Lemma item_of_nat a k x : a !! k = Some x → item a (Z.of_nat k) = Ok x.
Proof.
  intros Hx. unfold item.
  rewrite norm_index_of_nat by (by eapply lookup_lt_Some). by rewrite Hx.
Qed.

Lemma item_replicate n (z : A) i :
  valid_index n i → item (replicate n z) i = Ok z.
Proof.
  intros (k & Hk & Hlt)%norm_index_valid. unfold item.
  rewrite length_replicate, Hk.
  by rewrite lookup_replicate_2.
Qed.

Lemma take_replicate n (z : A) idx :
  Forall (valid_index n) idx →
  take (replicate n z) idx = Ok (replicate (length idx) z).
Proof.
  unfold take. induction 1 as [|i idx Hi _ IH]; [done|].
  simpl. rewrite item_replicate by done. simpl. by rewrite IH.
Qed.

Lemma positions_valid n idx :
  Forall (valid_index n) idx →
  ∃ pos, positions n idx = Ok pos ∧ length pos = length idx
         ∧ Forall (λ k, (k < n)%nat) pos.
Proof.
  unfold positions. induction 1 as [|i idx Hi _ (pos & IH & Hlen & Hall)].
  - by exists [].
  - destruct (norm_index_valid _ _ Hi) as (k & Hk & Hlt).
    exists (k :: pos). simpl. rewrite Hk. simpl. rewrite IH. simpl.
    repeat split; [by rewrite Hlen | by constructor].
Qed.

Lemma length_scatter a pos (vals : list A) : length (scatter a pos vals) = length a.
Proof.
  revert a vals. induction pos as [|k pos IH]; intros a [|v vals]; simpl; try done.
  by rewrite IH, length_insert.
Qed.

(** A position that is not written keeps its value. *)
Lemma scatter_lookup_other a pos (vals : list A) k :
  k ∉ pos → scatter a pos vals !! k = a !! k.
Proof.
  revert a vals. induction pos as [|j pos IH]; intros a [|v vals] Hk; simpl; try done.
  rewrite IH by set_solver.
  apply list_lookup_insert_ne. set_solver.
Qed.

(** A position that is written once holds the value written there. *)
Lemma scatter_lookup_written a pos (vals : list A) j k v :
  NoDup pos → pos !! j = Some k → vals !! j = Some v → (k < length a)%nat →
  scatter a pos vals !! k = Some v.
Proof.
  revert a vals j. induction pos as [|k' pos IH]; intros a [|v' vals] j Hnd Hj Hv Hk;
    simplify_eq/=; try done.
  apply NoDup_cons in Hnd as [Hnotin Hnd].
  destruct j as [|j]; simplify_eq/=.
  - rewrite scatter_lookup_other by done. by apply list_lookup_insert_eq.
  - eapply IH; eauto. by rewrite length_insert.
Qed.

(** Whatever a written position holds afterwards is one of the values. *)
Lemma scatter_lookup_in a pos (vals : list A) k :
  length pos = length vals → k ∈ pos → (k < length a)%nat →
  ∃ v, v ∈ vals ∧ scatter a pos vals !! k = Some v.
Proof.
  revert a vals. induction pos as [|k' pos IH]; intros a [|v' vals] Hlen Hin Hk;
    simplify_eq/=; try (by inversion Hin).
  destruct (decide (k ∈ pos)) as [Hin'|Hnot].
  - destruct (IH (<[k':=v']> a) vals) as (v & Hv & Hl); auto.
    { by rewrite length_insert. }
    exists v. split; [by right|done].
  - apply elem_of_cons in Hin as [->|?]; [|done].
    exists v'. split; [by left|].
    rewrite scatter_lookup_other by done. by apply list_lookup_insert_eq.
Qed.

End arrays.

(** ** The relation store *)

Section store.

Implicit Types (v : Vehicles.t) (key : string).

Lemma get_idxs_Some v key i :
  Vehicles.idxs v !! key = Some i → Vehicles.get_idxs v key = Ok i.
Proof. unfold Vehicles.get_idxs. by intros ->. Qed.

Lemma get_idxs_None v key :
  Vehicles.idxs v !! key = None → Vehicles.get_idxs v key = Raise (KeyError key).
Proof. unfold Vehicles.get_idxs. by intros ->. Qed.

(** C10: the label ["all"] is special for [get] and [get_pathlosses] only,
    which return the full coordinate and pathloss arrays for [None] and for
    ["all"] whatever the keys are. [get_points], [get_graph] and
    [get_distances] look ["all"] up like any other key: they raise
    [KeyError] when no key of that name was added, and index with the
    registered value when one was. *)
Theorem all_label_special v :
  Vehicles.get v None = Ok (Arr (Vehicles.coordinates v))
  ∧ Vehicles.get v (Some "all") = Ok (Arr (Vehicles.coordinates v))
  ∧ Vehicles.get_pathlosses v None = Ok (Arr (Vehicles.pathlosses v))
  ∧ Vehicles.get_pathlosses v (Some "all") = Ok (Arr (Vehicles.pathlosses v))
  ∧ match Vehicles.idxs v !! "all" with
    | None =>
        Vehicles.get_points v (Some "all") = Raise (KeyError "all")
        ∧ Vehicles.get_graph v (Some "all") = Raise (KeyError "all")
        ∧ Vehicles.get_distances v (Some "all") = Raise (KeyError "all")
    | Some i =>
        Vehicles.get_points v (Some "all") = index (Vehicles.points v) i
        ∧ Vehicles.get_distances v (Some "all") = index (Vehicles.distances v) i
        ∧ Vehicles.get_graph v (Some "all") =
            match Vehicles.graphs v with
            | None => Raise TypeError
            | Some gs => g ← index gs i ; Ok (Some g)
            end
    end.
Proof.
  repeat split; try done.
  destruct (Vehicles.idxs v !! "all") as [i|] eqn:Hall.
  - unfold Vehicles.get_points, Vehicles.get_distances, Vehicles.get_graph.
    rewrite (get_idxs_Some _ _ _ Hall). done.
  - unfold Vehicles.get_points, Vehicles.get_distances, Vehicles.get_graph.
    rewrite (get_idxs_None _ _ Hall). done.
Qed.

(** C6, as the code has it: [allocate(s)] gives the three relation arrays
    the length [s], all entries zero ([False] for the NLOS flags), and
    leaves the keys alone. Every key added before is still there with the
    same indices, and the pathlosses read through a key whose indices fit
    the new size are zeros. *)
Theorem allocate_zeroes_and_keeps_keys v (s : nat) :
  let v' := Vehicles.allocate v s in
  Vehicles.pathlosses v' = replicate s (Fin 0)
  ∧ Vehicles.distances v' = replicate s 0%Q
  ∧ Vehicles.nlos v' = replicate s false
  ∧ length (Vehicles.pathlosses v') = s
  ∧ length (Vehicles.distances v') = s
  ∧ length (Vehicles.nlos v') = s
  ∧ Vehicles.idxs v' = Vehicles.idxs v
  ∧ (∀ key, Vehicles.get_idxs v' key = Vehicles.get_idxs v key)
  ∧ (∀ key idx,
       key ≠ "all" →
       Vehicles.idxs v !! key = Some (Arr idx) →
       Forall (valid_index s) idx →
       Vehicles.get_pathlosses v' (Some key) = Ok (Arr (replicate (length idx) (Fin 0)))).
Proof.
  simpl. unfold zeros. rewrite !length_replicate.
  repeat split; try done.
  intros key idx Hne Hkey Hidx.
  unfold Vehicles.get_pathlosses. rewrite bool_decide_false by done.
  unfold Vehicles.get_idxs. simpl. rewrite Hkey. simpl.
  by rewrite take_replicate.
Qed.

Lemma allocate_zeroes_and_keeps_keys_witness :
  let v := Vehicles.add_key (Vehicles.init [] None 0) "nlos" (Arr [0; 2]) in
  Vehicles.get_pathlosses (Vehicles.allocate v 3) (Some "nlos") = Ok (Arr [Fin 0; Fin 0]).
Proof.
  intros v.
  destruct (allocate_zeroes_and_keeps_keys v 3) as (_ & _ & _ & _ & _ & _ & _ & _ & Hread).
  apply (Hread "nlos" [0; 2]).
  - done.
  - done.
  - repeat constructor; unfold valid_index; lia.
Defined.

(** C6, as stated, fails: a key added before [allocate] is still readable
    afterwards. *)
Lemma allocate_invalidates_keys_counterexample :
  let v := Vehicles.add_key (Vehicles.init [] None 0) "nlos" (Arr [0]) in
  Vehicles.get_idxs (Vehicles.allocate v 1) "nlos" = Ok (Arr [0])
  ∧ Vehicles.get_pathlosses (Vehicles.allocate v 1) (Some "nlos") = Ok (Arr [Fin 0])
  ∧ ¬ (∃ e, Vehicles.get_pathlosses (Vehicles.allocate v 1) (Some "nlos") = Raise e).
Proof.
  simpl. repeat split; try done. by intros [e ?].
Qed.

Lemma broadcast_same {A} (values : list A) n :
  length values = n → broadcast values n = Ok values.
Proof. intros Hn. unfold broadcast. by rewrite bool_decide_true. Qed.

Lemma broadcast_single {A} (x : A) n : broadcast [x] n = Ok (replicate n x).
Proof.
  unfold broadcast. case_bool_decide as Hn; [|done].
  simpl in Hn. by subst n.
Qed.

Lemma broadcast_mismatch {A} (values : list A) n :
  length values ≠ n → length values ≠ 1%nat → ∃ e, broadcast values n = Raise e.
Proof.
  intros Hn H1. unfold broadcast. rewrite bool_decide_false by done.
  destruct values as [|x [|y values]]; simpl in *; try done; eauto.
Qed.

Lemma put_mismatch {A} (a : list A) idx values :
  length values ≠ length idx → length values ≠ 1%nat → ∃ e, put a idx values = Raise e.
Proof.
  intros Hn H1. unfold put.
  destruct (positions (length a) idx) as [pos|e]; simpl; [|by eauto].
  destruct (broadcast_mismatch values (length idx) Hn H1) as [e ->]. simpl. eauto.
Qed.

(** C7, as the code has it, for a key that holds an index array. A value
    array that is neither as long as the key's indices nor of length one
    makes [set_pathlosses] fail and nothing is written. A value array of
    length one is broadcast: its entry is written at every index of the
    key. With as many values as indices, all of them in range, the write
    succeeds; the array keeps its length, every position outside the
    key's indices keeps its value, every position of the key holds one of
    the values, and, when the key has no index twice, position [j] of the
    key holds value [j]. *)
Theorem set_pathlosses_shape v key idx (values : list xfloat) :
  Vehicles.idxs v !! key = Some (Arr idx) →
  (length values ≠ length idx → length values ≠ 1%nat →
   ∃ e, Vehicles.set_pathlosses v key values = Raise e)
  ∧ (Forall (valid_index (length (Vehicles.pathlosses v))) idx →
     length values = length idx ∨ length values = 1%nat →
     ∃ v' pos,
       positions (length (Vehicles.pathlosses v)) idx = Ok pos
       ∧ Vehicles.set_pathlosses v key values = Ok v'
       ∧ v' = Vehicles.with_pathlosses v (Vehicles.pathlosses v')
       ∧ length (Vehicles.pathlosses v') = length (Vehicles.pathlosses v)
       ∧ (∀ k, k ∉ pos → Vehicles.pathlosses v' !! k = Vehicles.pathlosses v !! k)
       ∧ (∀ k, k ∈ pos → ∃ x, x ∈ values ∧ Vehicles.pathlosses v' !! k = Some x)
       ∧ (length values = length idx → NoDup pos →
          ∀ j k x, pos !! j = Some k → values !! j = Some x →
                   Vehicles.pathlosses v' !! k = Some x)).
Proof.
  intros Hkey. unfold Vehicles.set_pathlosses.
  rewrite (get_idxs_Some _ _ _ Hkey). simpl. split.
  - intros Hn H1. destruct (put_mismatch (Vehicles.pathlosses v) idx values Hn H1) as [e ->].
    simpl. eauto.
  - intros Hvalid Hlen.
    destruct (positions_valid _ _ Hvalid) as (pos & Hpos & Hposlen & Hposlt).
    assert (∃ vals, broadcast values (length idx) = Ok vals
                    ∧ length vals = length idx
                    ∧ (∀ x, x ∈ vals → x ∈ values)
                    ∧ (length values = length idx → vals = values))
      as (vals & Hb & Hvlen & Hvin & Hvsame).
    { destruct (decide (length values = length idx)) as [Heq|Hne].
      - exists values. by rewrite broadcast_same.
      - destruct Hlen as [?|H1]; [done|].
        destruct values as [|x [|??]]; simplify_eq/=.
        exists (replicate (length idx) x). rewrite broadcast_single.
        rewrite length_replicate. repeat split; try done.
        intros y [-> _]%elem_of_replicate. by left. }
    exists (Vehicles.with_pathlosses v (scatter (Vehicles.pathlosses v) pos vals)), pos.
    unfold put. rewrite Hpos, Hb. simpl.
    repeat split; try done.
    + apply length_scatter.
    + intros k Hk. by apply scatter_lookup_other.
    + intros k Hk.
      destruct (scatter_lookup_in (Vehicles.pathlosses v) pos vals k) as (x & Hx & Hl).
      * by rewrite Hposlen, Hvlen.
      * done.
      * rewrite Forall_forall in Hposlt. by apply Hposlt.
      * exists x. split; [by apply Hvin|done].
    + intros Heq Hnd j k x Hj Hx. rewrite (Hvsame Heq).
      eapply scatter_lookup_written; eauto.
      rewrite Forall_forall in Hposlt. apply Hposlt.
      by eapply list_elem_of_lookup_2.
Qed.

Lemma set_pathlosses_shape_witness :
  let v := Vehicles.add_key (Vehicles.allocate (Vehicles.init [] None 0) 3) "los" (Arr [0; 2]) in
  (∃ e, Vehicles.set_pathlosses v "los" [Fin 1; Fin 2; Fin 3] = Raise e)
  ∧ (∃ v', Vehicles.set_pathlosses v "los" [Fin 1; Fin 2] = Ok v'
           ∧ Vehicles.pathlosses v' !! 1%nat = Some (Fin 0)
           ∧ Vehicles.pathlosses v' !! 2%nat = Some (Fin 2)).
Proof.
  intros v.
  assert (Vehicles.idxs v !! "los" = Some (Arr [0; 2])) as Hkey by done.
  split.
  - destruct (set_pathlosses_shape v "los" [0; 2] [Fin 1; Fin 2; Fin 3] Hkey) as [Hfail _].
    apply Hfail; simpl; lia.
  - destruct (set_pathlosses_shape v "los" [0; 2] [Fin 1; Fin 2] Hkey) as [_ Hok].
    destruct Hok as (v' & pos & Hpos & Hset & _ & _ & Hother & _ & Hwritten).
    + repeat constructor; unfold valid_index; simpl; lia.
    + by left.
    + exists v'. split; [done|].
      assert (pos = [0; 2]%nat) as -> by (vm_compute in Hpos; congruence).
      split.
      * rewrite Hother; [done|]. compute_done.
      * apply (Hwritten eq_refl) with (j := 1%nat); [|done..].
        compute_done.
Defined.

(** C7, as stated, fails: one value for a key of three indices is not
    refused but written to all three. *)
Lemma set_pathlosses_broadcast_counterexample :
  let v := Vehicles.add_key (Vehicles.allocate (Vehicles.init [] None 0) 3) "los" (Arr [0; 1; 2]) in
  length [Fin 5] ≠ length [0; 1; 2]
  ∧ ∃ v', Vehicles.set_pathlosses v "los" [Fin 5] = Ok v'
          ∧ Vehicles.pathlosses v' = [Fin 5; Fin 5; Fin 5].
Proof.
  simpl. split; [lia|]. eexists. split; reflexivity.
Qed.

End store.

(** ** Masks and index arrays *)

Section masks.

Context {A : Type}.
Implicit Types (a : list A) (m : list bool).

Lemma select_nil_l m : select (@nil A) m = [].
Proof. by destruct m. Qed.

Lemma select_cons x a b m :
  select (x :: a) (b :: m) = if b then x :: select a m else select a m.
Proof.
  unfold select. simpl. rewrite filter_cons. simpl.
  destruct b; by case_decide.
Qed.

Lemma mask_ok a m : length m = length a → mask a m = Ok (select a m).
Proof. intros Hlen. unfold mask. by rewrite bool_decide_true. Qed.

Lemma select_sublist a m : select a m `sublist_of` a.
Proof.
  revert m. induction a as [|x a IH]; intros [|b m]; try done.
  - apply sublist_nil_l.
  - rewrite select_cons. destruct b; [by apply sublist_skip|by apply sublist_cons].
Qed.

Lemma select_NoDup a m : NoDup a → NoDup (select a m).
Proof. intros Hnd. eapply sublist_NoDup; [done|apply select_sublist]. Qed.

Lemma elem_of_select_1 a m x : x ∈ select a m → x ∈ a.
Proof. intros Hx. eapply elem_of_sublist; [done|apply select_sublist]. Qed.

(** A mask and its inverse split the array. *)
Lemma select_invert_perm a m :
  length m = length a → select a m ++ select a (invert m) ≡ₚ a.
Proof.
  revert m. induction a as [|x a IH]; intros [|b m] Hlen; simplify_eq/=; [done|].
  change (invert (b :: m)) with (negb b :: invert m). rewrite !select_cons.
  destruct b; simpl.
  - by rewrite IH.
  - rewrite <-Permutation_middle. by rewrite IH.
Qed.

Lemma length_select a m :
  length m = length a → length (select a m) = length (filter (λ b, b = true) m).
Proof.
  revert m. induction a as [|x a IH]; intros [|b m] Hlen; simplify_eq/=; [done|].
  rewrite select_cons, filter_cons.
  destruct b; case_decide; simplify_eq/=; by rewrite IH.
Qed.

Lemma length_invert m : length (invert m) = length m.
Proof. unfold invert. by rewrite length_fmap. Qed.

Lemma elem_of_select a m x :
  x ∈ select a m ↔ ∃ j, a !! j = Some x ∧ m !! j = Some true.
Proof.
  revert m. induction a as [|y a IH]; intros m.
  - rewrite select_nil_l. split; [by intros ?%elem_of_nil|by intros (j & ? & _)].
  - destruct m as [|b m].
    { split; [by intros ?%elem_of_nil|by intros (j & _ & ?)]. }
    rewrite select_cons. split.
    + destruct b.
      * intros [->|(j & ? & ?)%IH]%elem_of_cons; [by exists 0%nat|by exists (S j)].
      * intros (j & ? & ?)%IH. by exists (S j).
    + intros ([|j] & Hj & Hm); simplify_eq/=.
      * by left.
      * assert (x ∈ select a m) by (apply IH; eauto).
        destruct b; [by right|done].
Qed.

(** Selecting with flags computed entry by entry is a filter. *)
Lemma elem_of_select_fmap a (f : A → bool) x :
  x ∈ select a (f <$> a) ↔ x ∈ a ∧ f x = true.
Proof.
  rewrite elem_of_select. split.
  - intros (j & Hj & Hm). rewrite list_lookup_fmap, Hj in Hm. simplify_eq/=.
    split; [by eapply list_elem_of_lookup_2|done].
  - intros [(j & Hj)%list_elem_of_lookup_1 Hf]. exists j.
    by rewrite list_lookup_fmap, Hj, <-Hf.
Qed.

End masks.

Section index_arrays.

Context {A : Type}.
Implicit Types (a : list A) (idx : list Z).

Lemma norm_index_plain n i : plain_index n i → norm_index n i = Some (Z.to_nat i).
Proof. intros Hi. unfold norm_index. by rewrite bool_decide_true. Qed.

Lemma rmapM_cons {B C} (f : B → result C) x l :
  rmapM f (x :: l) = (b ← f x ; bs ← rmapM f l ; Ok (b :: bs)).
Proof. done. Qed.

Lemma item_plain a i x :
  plain_index (length a) i → a !! Z.to_nat i = Some x → item a i = Ok x.
Proof. intros Hi Hx. unfold item. by rewrite (norm_index_plain _ _ Hi), Hx. Qed.

Lemma take_plain a idx :
  Forall (plain_index (length a)) idx →
  ∃ xs, take a idx = Ok xs ∧ length xs = length idx
        ∧ ∀ j i, idx !! j = Some i → xs !! j = a !! Z.to_nat i.
Proof.
  unfold take. induction 1 as [|i idx Hi _ (xs & IH & Hlen & Hxs)].
  - exists []. by repeat split.
  - assert (∃ x, a !! Z.to_nat i = Some x) as [x Hx].
    { apply lookup_lt_is_Some. unfold plain_index in Hi. lia. }
    exists (x :: xs). rewrite rmapM_cons, (item_plain _ _ _ Hi Hx), IH. simpl.
    repeat split; [by rewrite Hlen|].
    intros [|j] i' ?; simplify_eq/=; [done|by apply Hxs].
Qed.

Lemma positions_plain n idx :
  Forall (plain_index n) idx → positions n idx = Ok (Z.to_nat <$> idx).
Proof.
  unfold positions. induction 1 as [|i idx Hi _ IH]; [done|].
  rewrite rmapM_cons, (norm_index_plain _ _ Hi), IH. done.
Qed.

Lemma put_plain a idx (values : list A) :
  Forall (plain_index (length a)) idx → length values = length idx →
  put a idx values = Ok (scatter a (Z.to_nat <$> idx) values).
Proof.
  intros Hidx Hlen. unfold put.
  rewrite positions_plain by done. simpl.
  by rewrite broadcast_same.
Qed.


End index_arrays.

Lemma arange_lookup n j : (j < n)%nat → arange n !! j = Some (Z.of_nat j).
Proof.
  intros Hj. unfold arange. rewrite list_lookup_fmap, lookup_seq_lt by done. done.
Qed.

Lemma length_arange n : length (arange n) = n.
Proof. unfold arange. by rewrite length_fmap, length_seq. Qed.

Lemma elem_of_arange n i : i ∈ arange n ↔ plain_index n i.
Proof.
  unfold arange, plain_index. rewrite list_elem_of_fmap. split.
  - intros (k & -> & Hk%elem_of_seq). lia.
  - intros Hi. exists (Z.to_nat i). split; [lia|]. apply elem_of_seq. lia.
Qed.

Lemma NoDup_arange n : NoDup (arange n).
Proof. unfold arange. apply NoDup_fmap_2; [apply _|apply NoDup_seq]. Qed.

(** [np.where] of flags computed from [np.arange(n)] *)
Lemma elem_of_where_arange n (f : Z → bool) i :
  i ∈ where_ (f <$> arange n) ↔ plain_index n i ∧ f i = true.
Proof.
  unfold where_. rewrite length_fmap, length_arange.
  by rewrite elem_of_select_fmap, elem_of_arange.
Qed.

Lemma NoDup_where_arange n (f : Z → bool) : NoDup (where_ (f <$> arange n)).
Proof.
  unfold where_. rewrite length_fmap, length_arange.
  apply select_NoDup, NoDup_arange.
Qed.

(** ** Single-center mode *)

Section single_center.

Context {ext : Externals} {shape : ExternalsShape ext}.

Lemma bind_ok {A B} (a : A) (f : A → result B) : (Ok a ≫= f) = f a.
Proof. done. Qed.

Ltac store_fields :=
  cbn [Vehicles.count Vehicles.points Vehicles.coordinates Vehicles.graphs
       Vehicles.pathlosses Vehicles.distances Vehicles.nlos Vehicles.idxs
       Vehicles.add_key Vehicles.allocate Vehicles.with_pathlosses].

Ltac key_lookup :=
  unfold Vehicles.get_idxs; store_fields;
  repeat first [rewrite lookup_insert_eq | rewrite lookup_insert_ne by done].

Ltac step H := rewrite H, bind_ok; cbv beta.

Lemma index_scalar {A} (a : list A) i :
  plain_index (length a) i →
  ∃ x, a !! Z.to_nat i = Some x ∧ index a (Scalar i) = Ok (Scalar x).
Proof.
  intros Hi.
  assert (∃ x, a !! Z.to_nat i = Some x) as [x Hx].
  { apply lookup_lt_is_Some. unfold plain_index in Hi. lia. }
  exists x. split; [done|]. unfold index. by rewrite (item_plain _ _ _ Hi Hx).
Qed.

Lemma index_arr {A} (a : list A) idx :
  Forall (plain_index (length a)) idx →
  ∃ xs, index a (Arr idx) = Ok (Arr xs) ∧ length xs = length idx
        ∧ ∀ j i, idx !! j = Some i → xs !! j = a !! Z.to_nat i.
Proof.
  intros (xs & Hxs & Hlen & Hl)%take_plain. exists xs.
  unfold index. by rewrite Hxs.
Qed.

Lemma Forall_plain_select n (a : list Z) m :
  Forall (plain_index n) a → Forall (plain_index n) (select a m).
Proof.
  rewrite !Forall_forall. intros Ha x Hx. by eapply Ha, elem_of_select_1.
Qed.

Lemma rows_arr {A} (l : list A) : rows (Arr l) = Ok l.
Proof. done. Qed.

Lemma scalar_scalar {A} (x : A) : scalar (Scalar x) = Ok x.
Proof. done. Qed.

Lemma length_zeros {A} (z : A) n : length (zeros z n) = n.
Proof. apply length_replicate. Qed.

(** What a run of [main_sim] leaves in the store, in terms of the flags
    that the classifiers returned. *)
Lemma main_sim_run (net : network buildings wave_graph) (max_pl : Q) :
  let v := vehs net in
  let n := Vehicles.count v in
  let c := find_center_veh (Arr (Vehicles.coordinates v)) in
  let others := where_ ((λ i, bool_decide (i ≠ c)) <$> arange n) in
  store_ok v → plain_index n c →
  ∃ (is_nlos is_olos is_orth : list bool) (d_olos d_los : list Q)
    (vals_orth pl_other : list xfloat) v',
    let N := select others is_nlos in
    let O := select others (invert is_nlos) in
    let OL := select O is_olos in
    let L := select O (invert is_olos) in
    let OR := select N is_orth in
    let PA := select N (invert is_orth) in
    let pl :=
      scatter
        (scatter
           (scatter
              (scatter (zeros (Fin 0) n) (Z.to_nat <$> OL) (neg_all (pathloss_olos <$> d_olos)))
              (Z.to_nat <$> L) (neg_all (pathloss_los <$> d_los)))
           (Z.to_nat <$> OR) vals_orth)
        (Z.to_nat <$> PA) (replicate (length PA) PInf) in
    let in_range := (λ x, xlt x max_pl) <$> pl_other in
    main_sim net max_pl = Ok v'
    ∧ length is_nlos = length others
    ∧ length is_olos = length O
    ∧ length is_orth = length N
    ∧ length d_olos = length OL
    ∧ length d_los = length L
    ∧ length vals_orth = length OR
    ∧ Vehicles.pathlosses v' = pl
    ∧ take pl others = Ok pl_other
    ∧ Vehicles.idxs v' =
        <["out_range" := Arr (select others (invert in_range))]>
          (<["in_range" := Arr (select others in_range)]>
             (<["par" := Arr PA]>
                (<["orth" := Arr OR]>
                   (<["los" := Arr L]>
                      (<["olos" := Arr OL]>
                         (<["olos_los" := Arr O]>
                            (<["nlos" := Arr N]>
                               (<["other" := Arr others]>
                                  (<["center" := Scalar c]> (Vehicles.idxs v)))))))))).
Proof.
  intros v n c others (Hpts & Hcoords & gs & Hgs & Hgslen) Hc.
  unfold main_sim. cbv zeta.
  fold v. fold n.
  change (Vehicles.get (Vehicles.allocate v n) None) with (Ok (Arr (Vehicles.coordinates v))).
  rewrite bind_ok. cbv beta. fold c. fold others.
  assert (Forall (plain_index n) others) as Hothers.
  { apply Forall_forall. intros i Hi. by apply elem_of_where_arange in Hi as [? _]. }
  (* the points of the center and of the others *)
  destruct (index_scalar (Vehicles.points v) c) as (pc & _ & Hpc); [by rewrite Hpts|].
  destruct (index_arr (Vehicles.points v) others) as (po & Hpo & Hpolen & _); [by rewrite Hpts|].
  unfold Vehicles.get_points. key_lookup. rewrite !bind_ok. step Hpc. step Hpo.
  set (is_nlos := veh_cons_are_nlos _ _ _).
  assert (length is_nlos = length others) as Hnlos.
  { unfold is_nlos. by rewrite nlos_shape. }
  rewrite (mask_ok others is_nlos), bind_ok by done. cbv beta.
  rewrite (mask_ok others (invert is_nlos)), bind_ok by (by rewrite length_invert). cbv beta.
  set (N := select others is_nlos). set (O := select others (invert is_nlos)).
  assert (Forall (plain_index n) N) as HN by (by apply Forall_plain_select).
  assert (Forall (plain_index n) O) as HO by (by apply Forall_plain_select).
  key_lookup. rewrite !bind_ok. step Hpc.
  destruct (index_arr (Vehicles.points v) O) as (pO & HpO & HpOlen & _); [by rewrite Hpts|].
  step HpO.
  set (is_olos := veh_cons_are_olos _ _ _).
  assert (length is_olos = length O) as Holos.
  { unfold is_olos. rewrite olos_shape. done. }
  rewrite !bind_ok, rows_arr, bind_ok.
  rewrite (mask_ok O is_olos), bind_ok by done. cbv beta.
  key_lookup. rewrite !bind_ok, rows_arr, bind_ok.
  rewrite (mask_ok O (invert is_olos)), bind_ok by (by rewrite length_invert). cbv beta.
  set (OL := select O is_olos). set (L := select O (invert is_olos)).
  assert (Forall (plain_index n) OL) as HOL by (by apply Forall_plain_select).
  assert (Forall (plain_index n) L) as HL by (by apply Forall_plain_select).
  (* the graphs of the center and of the NLOS vehicles *)
  unfold Vehicles.get_graph. key_lookup. rewrite !bind_ok. rewrite Hgs.
  destruct (index_scalar gs c) as (gc & _ & Hgc); [by rewrite Hgslen|].
  destruct (index_arr gs N) as (gN & HgN & HgNlen & _); [by rewrite Hgslen|].
  step Hgc. step HgN. rewrite !bind_ok.
  pose proof (orth_shape (graph_streets_wave net) (Some (Scalar gc)) (Arr gN) np_pi)
    as [Horth Hcoordslen].
  destruct (check_if_cons_orthogonal _ _ _ _) as [is_orth coords_x].
  simpl in Horth, Hcoordslen. rewrite HgNlen in Horth, Hcoordslen.
  key_lookup. rewrite !bind_ok, rows_arr, bind_ok.
  rewrite (mask_ok N is_orth), bind_ok by done. cbv beta.
  key_lookup. rewrite !bind_ok, rows_arr, bind_ok.
  rewrite (mask_ok N (invert is_orth)), bind_ok by (by rewrite length_invert). cbv beta.
  set (OR := select N is_orth). set (PA := select N (invert is_orth)).
  assert (Forall (plain_index n) OR) as HOR by (by apply Forall_plain_select).
  assert (Forall (plain_index n) PA) as HPA by (by apply Forall_plain_select).
  (* pathlosses for OLOS and LOS *)
  destruct (index_scalar (Vehicles.coordinates v) c) as (cc & _ & Hcc); [by rewrite Hcoords|].
  destruct (index_arr (Vehicles.coordinates v) O) as (cO & HcO & HcOlen & _);
    [by rewrite Hcoords|].
  unfold Vehicles.get. rewrite ?bool_decide_false by done. key_lookup.
  rewrite !bind_ok. step HcO. rewrite rows_arr, bind_ok. step Hcc.
  rewrite scalar_scalar, bind_ok.
  set (dists := (λ c0, np_hypot c0 cc) <$> cO).
  assert (length dists = length O) as Hdists by (unfold dists; by rewrite length_fmap).
  rewrite (mask_ok dists is_olos), bind_ok by congruence. cbv beta.
  set (d_olos := select dists is_olos).
  assert (length d_olos = length OL) as Hdolos.
  { unfold d_olos, OL. rewrite !length_select by congruence. done. }
  unfold Vehicles.set_pathlosses. key_lookup. rewrite !bind_ok.
  unfold assign. store_fields.
  rewrite put_plain, bind_ok; cycle 1.
  { by rewrite length_zeros. }
  { unfold neg_all. by rewrite !length_fmap. }
  cbv beta. rewrite bind_ok.
  set (pl1 := scatter (zeros (Fin 0) n) _ _).
  assert (length pl1 = n) as Hpl1 by (unfold pl1; by rewrite length_scatter, length_zeros).
  rewrite (mask_ok dists (invert is_olos)), bind_ok by (rewrite length_invert; congruence).
  cbv beta.
  set (d_los := select dists (invert is_olos)).
  assert (length d_los = length L) as Hdlos.
  { unfold d_los, L. rewrite !length_select by (rewrite length_invert; congruence). done. }
  key_lookup. rewrite !bind_ok. unfold assign. store_fields.
  rewrite put_plain, bind_ok; cycle 1.
  { by rewrite Hpl1. }
  { unfold neg_all. by rewrite !length_fmap. }
  cbv beta. rewrite bind_ok.
  set (pl2 := scatter pl1 _ _).
  assert (length pl2 = n) as Hpl2 by (unfold pl2; by rewrite length_scatter).
  (* pathlosses for NLOS *)
  destruct (index_arr (Vehicles.coordinates v) OR) as (cOR & HcOR & HcORlen & _);
    [by rewrite Hcoords|].
  key_lookup. rewrite !bind_ok. step HcOR. rewrite rows_arr, bind_ok.
  rewrite (mask_ok coords_x is_orth), bind_ok by congruence. cbv beta.
  set (x_orth := select coords_x is_orth).
  assert (length x_orth = length OR) as Hxorth.
  { unfold x_orth, OR. rewrite !length_select by congruence. done. }
  step Hcc. rewrite scalar_scalar, bind_ok.
  set (vals_orth := Fin <$> zip_with pathloss_nlos _ _).
  assert (length vals_orth = length OR) as Hvorth.
  { unfold vals_orth. rewrite length_fmap, !length_zip_with, length_fmap. lia. }
  key_lookup. rewrite !bind_ok. unfold assign. store_fields.
  rewrite put_plain, bind_ok; cycle 1.
  { by rewrite Hpl2. }
  { done. }
  cbv beta. rewrite bind_ok.
  set (pl3 := scatter pl2 _ _).
  assert (length pl3 = n) as Hpl3 by (unfold pl3; by rewrite length_scatter).
  assert (length (filter (λ b, b = true) (invert is_orth)) = length PA) as Hpar.
  { unfold PA. rewrite length_select by (rewrite length_invert; congruence). done. }
  rewrite Hpar.
  key_lookup. rewrite !bind_ok. unfold assign. store_fields.
  rewrite put_plain, bind_ok; cycle 1.
  { by rewrite Hpl3. }
  { by rewrite length_replicate. }
  cbv beta. rewrite bind_ok.
  set (pl4 := scatter pl3 _ _).
  assert (length pl4 = n) as Hpl4 by (unfold pl4; by rewrite length_scatter).
  (* in range and out of range *)
  destruct (index_arr pl4 others) as (pl_other & Hplo & Hplolen & Hplol); [by rewrite Hpl4|].
  unfold Vehicles.get_pathlosses. rewrite ?bool_decide_false by done. key_lookup.
  rewrite !bind_ok. step Hplo. rewrite rows_arr, bind_ok.
  key_lookup. rewrite !bind_ok, rows_arr, bind_ok.
  rewrite mask_ok, bind_ok by (by rewrite length_fmap). cbv beta.
  key_lookup. rewrite !bind_ok, rows_arr, bind_ok.
  rewrite mask_ok, bind_ok by (by rewrite length_invert, length_fmap). cbv beta.
  exists is_nlos, is_olos, is_orth, d_olos, d_los, vals_orth, pl_other.
  eexists. cbv zeta. split; [reflexivity|].
  repeat split; try done.
  unfold index in Hplo. destruct (take pl4 others) eqn:E; simplify_eq/=. exact E.
Qed.

End single_center.

Section select_split.

Context {A : Type}.
Implicit Types (a : list A) (m : list bool).

Lemma select_disjoint a m x :
  NoDup a → length m = length a → x ∈ select a m → x ∉ select a (invert m).
Proof.
  intros Hnd Hlen Hx.
  assert (NoDup (select a m ++ select a (invert m))) as Hnd'.
  { by rewrite select_invert_perm. }
  apply NoDup_app in Hnd' as (_ & Hdisj & _). by apply Hdisj.
Qed.

Lemma elem_of_select_split a m x :
  length m = length a → x ∈ a → x ∈ select a m ∨ x ∈ select a (invert m).
Proof.
  intros Hlen Hx. apply elem_of_app. by rewrite select_invert_perm.
Qed.

End select_split.

Section single_center_partition.

Context {ext : Externals} {shape : ExternalsShape ext}.

(** C1: in single-center mode the keys classify the other vehicles
    without overlap. ['other'] holds every vehicle index but the center,
    once; ['olos'] and ['los'] are disjoint and make up ['olos_los'];
    ['orth'] and ['par'] are disjoint and make up ['nlos']; ['olos_los']
    and ['nlos'] are disjoint and make up ['other']; so every other
    vehicle is in exactly one of ['los'], ['olos'], ['orth'], ['par']. *)
Theorem main_sim_partition (net : network buildings wave_graph) (max_pl : Q) :
  let v := vehs net in
  let n := Vehicles.count v in
  let c := find_center_veh (Arr (Vehicles.coordinates v)) in
  store_ok v → plain_index n c →
  ∃ v' other nlos olos_los olos los orth par,
    main_sim net max_pl = Ok v'
    ∧ Vehicles.get_idxs v' "other" = Ok (Arr other)
    ∧ Vehicles.get_idxs v' "nlos" = Ok (Arr nlos)
    ∧ Vehicles.get_idxs v' "olos_los" = Ok (Arr olos_los)
    ∧ Vehicles.get_idxs v' "olos" = Ok (Arr olos)
    ∧ Vehicles.get_idxs v' "los" = Ok (Arr los)
    ∧ Vehicles.get_idxs v' "orth" = Ok (Arr orth)
    ∧ Vehicles.get_idxs v' "par" = Ok (Arr par)
    ∧ (∀ i, i ∈ other ↔ plain_index n i ∧ i ≠ c)
    ∧ NoDup other
    ∧ olos ++ los ≡ₚ olos_los ∧ (∀ i, i ∈ olos → i ∉ los)
    ∧ orth ++ par ≡ₚ nlos ∧ (∀ i, i ∈ orth → i ∉ par)
    ∧ olos_los ++ nlos ≡ₚ other ∧ (∀ i, i ∈ olos_los → i ∉ nlos)
    ∧ (∀ i, i ∈ other → exactly_one (i ∈ los) (i ∈ olos) (i ∈ orth) (i ∈ par)).
Proof.
  intros v n c Hok Hc.
  destruct (main_sim_run net max_pl Hok Hc)
    as (is_nlos & is_olos & is_orth & d_olos & d_los & vals_orth & pl_other & v'
        & Hrun & Hnlos & Holos & Horth & _ & _ & _ & _ & _ & Hidxs).
  fold v n c in Hnlos, Holos, Horth, Hidxs.
  set (others := where_ ((λ i, bool_decide (i ≠ c)) <$> arange n)) in *.
  set (N := select others is_nlos) in *.
  set (O := select others (invert is_nlos)) in *.
  assert (NoDup others) as Hnd by apply NoDup_where_arange.
  assert (NoDup N) as HndN by (by apply select_NoDup).
  assert (NoDup O) as HndO by (by apply select_NoDup).
  exists v', others, N, O, (select O is_olos), (select O (invert is_olos)),
    (select N is_orth), (select N (invert is_orth)).
  split; [done|].
  unfold Vehicles.get_idxs. rewrite Hidxs.
  repeat (rewrite lookup_insert_eq || rewrite lookup_insert_ne by done).
  split_and!; try done.
  - intros i. unfold others. rewrite elem_of_where_arange.
    by rewrite bool_decide_eq_true.
  - by apply select_invert_perm.
  - intros i. by apply select_disjoint.
  - by apply select_invert_perm.
  - intros i. by apply select_disjoint.
  - rewrite Permutation_app_comm. by apply select_invert_perm.
  - intros i Hi HiN. by eapply (select_disjoint others is_nlos i).
  - intros i Hi. unfold exactly_one.
    assert (∀ j, j ∈ N → j ∉ O) as HNO by (intros j; by apply select_disjoint).
    assert (∀ j (m : list bool), j ∈ select O m → j ∈ O) as HsubO
      by (intros j m; apply elem_of_select_1).
    assert (∀ j (m : list bool), j ∈ select N m → j ∈ N) as HsubN
      by (intros j m; apply elem_of_select_1).
    assert (∀ j, j ∈ select O is_olos → j ∉ select O (invert is_olos)) as HdO
      by (intros j; by apply select_disjoint).
    assert (∀ j, j ∈ select N is_orth → j ∉ select N (invert is_orth)) as HdN
      by (intros j; by apply select_disjoint).
    destruct (elem_of_select_split others is_nlos i Hnlos Hi) as [HiN|HiO].
    + destruct (elem_of_select_split N is_orth i Horth HiN) as [Hor|Hpa].
      * right. right. left. naive_solver.
      * right. right. right. naive_solver.
    + destruct (elem_of_select_split O is_olos i Holos HiO) as [Hol|Hl].
      * right. left. naive_solver.
      * left. naive_solver.
Qed.




End single_center_partition.

(** ** Single-center mode in the small town *)

Lemma example_shape : ExternalsShape Example.externals.
Proof.
  split; simpl.
  - intros _ [p|l] _; simpl; [done|by rewrite length_fmap].
  - intros _ [p|l] _; simpl; [done|by rewrite length_fmap].
  - intros _ _ [g|l] _; simpl; [done|by rewrite length_fmap, length_replicate].
Qed.

Lemma example_store_ok : store_ok (vehs Example.net).
Proof.
  split; [by vm_compute|]. split; [by vm_compute|].
  eexists. split; by vm_compute.
Qed.

Lemma main_sim_partition_witness :
  let v := vehs Example.net in
  let n := Vehicles.count v in
  let c := @find_center_veh Example.externals (Arr (Vehicles.coordinates v)) in
  ∃ v' other nlos olos_los olos los orth par,
    @main_sim Example.externals Example.net 150 = Ok v'
    ∧ Vehicles.get_idxs v' "other" = Ok (Arr other)
    ∧ Vehicles.get_idxs v' "nlos" = Ok (Arr nlos)
    ∧ Vehicles.get_idxs v' "olos_los" = Ok (Arr olos_los)
    ∧ Vehicles.get_idxs v' "olos" = Ok (Arr olos)
    ∧ Vehicles.get_idxs v' "los" = Ok (Arr los)
    ∧ Vehicles.get_idxs v' "orth" = Ok (Arr orth)
    ∧ Vehicles.get_idxs v' "par" = Ok (Arr par)
    ∧ (∀ i, i ∈ other ↔ plain_index n i ∧ i ≠ c)
    ∧ NoDup other
    ∧ olos ++ los ≡ₚ olos_los ∧ (∀ i, i ∈ olos → i ∉ los)
    ∧ orth ++ par ≡ₚ nlos ∧ (∀ i, i ∈ orth → i ∉ par)
    ∧ olos_los ++ nlos ≡ₚ other ∧ (∀ i, i ∈ olos_los → i ∉ nlos)
    ∧ (∀ i, i ∈ other → exactly_one (i ∈ los) (i ∈ olos) (i ∈ orth) (i ∈ par)).
Proof.
  apply (@main_sim_partition Example.externals example_shape Example.net 150).
  - exact example_store_ok.
  - by vm_compute.
Defined.


(** ** More on the relation store *)

Section store_round_trips.

Implicit Types (v : Vehicles.t) (key : string) (idx : list Z).

(** Reading back what [a[idx] = values] wrote. *)
Lemma take_scatter {A} (a : list A) idx (values : list A) :
  Forall (plain_index (length a)) idx → NoDup idx → length values = length idx →
  take (scatter a (Z.to_nat <$> idx) values) idx = Ok values.
Proof.
  intros Hidx Hnd Hlen.
  destruct (take_plain (scatter a (Z.to_nat <$> idx) values) idx) as (xs & -> & Hxs & Hl).
  { by rewrite length_scatter. }
  f_equal. apply list_eq. intros j.
  destruct (idx !! j) as [i|] eqn:Hj.
  - rewrite (Hl j i Hj).
    assert (is_Some (values !! j)) as [x Hx].
    { apply lookup_lt_is_Some. rewrite Hlen. by eapply lookup_lt_Some. }
    rewrite Hx. eapply scatter_lookup_written; [| |done|].
    + apply NoDup_fmap_2_strong; [|done].
      intros x1 x2 H1 H2 Heq. rewrite Forall_forall in Hidx.
      pose proof (Hidx _ H1). pose proof (Hidx _ H2). unfold plain_index in *. lia.
    + by rewrite list_lookup_fmap, Hj.
    + rewrite Forall_forall in Hidx.
      assert (plain_index (length a) i) as Hi by (by eapply Hidx, list_elem_of_lookup_2).
      unfold plain_index in Hi. lia.
  - apply lookup_ge_None in Hj.
    rewrite !lookup_ge_None_2; [done|lia..].
Qed.

(** X1: a key that was added is found with its value, a second
    [add_key] for the same key replaces the value, and the other keys are
    as before. *)
Theorem add_key_get_idxs v key key' (value value' : nd Z) :
  Vehicles.get_idxs (Vehicles.add_key v key value) key = Ok value
  ∧ Vehicles.get_idxs (Vehicles.add_key (Vehicles.add_key v key value) key value') key
    = Ok value'
  ∧ Vehicles.get_idxs (Vehicles.add_key v key value) key'
    = if decide (key = key') then Ok value else Vehicles.get_idxs v key'.
Proof.
  unfold Vehicles.get_idxs, Vehicles.add_key. simpl.
  rewrite !lookup_insert_eq. split_and!; [done..|].
  case_decide as Hk.
  - subst. by rewrite lookup_insert_eq.
  - by rewrite lookup_insert_ne.
Qed.

(** X2: every access through a key that was never added raises
    [KeyError] for that key, and the setters write nothing. *)
Theorem missing_key_raises v key :
  Vehicles.idxs v !! key = None →
  Vehicles.get_idxs v key = Raise (KeyError key)
  ∧ Vehicles.get_points v (Some key) = Raise (KeyError key)
  ∧ Vehicles.get_graph v (Some key) = Raise (KeyError key)
  ∧ Vehicles.get_distances v (Some key) = Raise (KeyError key)
  ∧ (∀ values, Vehicles.set_pathlosses v key values = Raise (KeyError key))
  ∧ (∀ values, Vehicles.set_distances v key values = Raise (KeyError key))
  ∧ (key ≠ "all" → Vehicles.get v (Some key) = Raise (KeyError key))
  ∧ (key ≠ "all" → Vehicles.get_pathlosses v (Some key) = Raise (KeyError key)).
Proof.
  intros Hkey%get_idxs_None.
  unfold Vehicles.get_points, Vehicles.get_graph, Vehicles.get_distances,
    Vehicles.set_pathlosses, Vehicles.set_distances, Vehicles.get, Vehicles.get_pathlosses.
  rewrite Hkey. split_and!; try done.
  - intros Hne. by rewrite bool_decide_false.
  - intros Hne. by rewrite bool_decide_false.
Qed.

Lemma missing_key_raises_witness :
  let v := Vehicles.add_key (Vehicles.init [] None 0) "los" (Arr [0]) in
  Vehicles.get_distances v (Some "nlos") = Raise (KeyError "nlos")
  ∧ Vehicles.get_pathlosses v (Some "nlos") = Raise (KeyError "nlos").
Proof.
  intros v.
  destruct (missing_key_raises v "nlos") as (_ & _ & _ & Hd & _ & _ & _ & Hp); [done|].
  split; [exact Hd|by apply Hp].
Defined.

(** X3: distances written through a key are the distances read through
    it, when the key holds distinct positions of the array and there is
    one value per position; positions outside the key keep their
    distance. *)
Theorem set_get_distances v key idx (values : list Q) :
  Vehicles.idxs v !! key = Some (Arr idx) →
  Forall (plain_index (length (Vehicles.distances v))) idx →
  NoDup idx →
  length values = length idx →
  ∃ v', Vehicles.set_distances v key values = Ok v'
        ∧ Vehicles.get_distances v' (Some key) = Ok (Arr values)
        ∧ length (Vehicles.distances v') = length (Vehicles.distances v)
        ∧ (∀ k, Z.of_nat k ∉ idx → Vehicles.distances v' !! k = Vehicles.distances v !! k).
Proof.
  intros Hkey Hidx Hnd Hlen.
  unfold Vehicles.set_distances, Vehicles.get_distances.
  rewrite (get_idxs_Some _ _ _ Hkey). simpl.
  rewrite put_plain by done. simpl.
  eexists. split; [done|].
  unfold Vehicles.get_idxs. simpl. rewrite Hkey. simpl.
  rewrite take_scatter by done. split_and!; [done|apply length_scatter|].
  intros k Hk. apply scatter_lookup_other.
  intros (i & -> & Hi)%list_elem_of_fmap.
  rewrite Forall_forall in Hidx. specialize (Hidx _ Hi). unfold plain_index in Hidx.
  apply Hk. by rewrite Z2Nat.id by lia.
Qed.

Lemma set_get_distances_witness :
  let v := Vehicles.add_key (Vehicles.allocate (Vehicles.init [] None 0) 3) "nlos" (Arr [2; 0]) in
  ∃ v', Vehicles.set_distances v "nlos" [7; 9]%Q = Ok v'
        ∧ Vehicles.get_distances v' (Some "nlos") = Ok (Arr [7; 9]%Q)
        ∧ length (Vehicles.distances v') = length (Vehicles.distances v)
        ∧ (∀ k, Z.of_nat k ∉ [2; 0] → Vehicles.distances v' !! k = Vehicles.distances v !! k).
Proof.
  intros v. apply (set_get_distances v "nlos" [2; 0] [7; 9]%Q).
  - done.
  - repeat constructor; unfold plain_index; simpl; lia.
  - compute_done.
  - done.
Defined.

(** X4: the same round trip for pathlosses holds for every key but one
    named ["all"], for which [get_pathlosses] returns the whole array. *)
Theorem set_get_pathlosses v key idx (values : list xfloat) :
  key ≠ "all" →
  Vehicles.idxs v !! key = Some (Arr idx) →
  Forall (plain_index (length (Vehicles.pathlosses v))) idx →
  NoDup idx →
  length values = length idx →
  ∃ v', Vehicles.set_pathlosses v key values = Ok v'
        ∧ Vehicles.get_pathlosses v' (Some key) = Ok (Arr values)
        ∧ Vehicles.get_pathlosses v' (Some "all") = Ok (Arr (Vehicles.pathlosses v'))
        ∧ length (Vehicles.pathlosses v') = length (Vehicles.pathlosses v).
Proof.
  intros Hne Hkey Hidx Hnd Hlen.
  unfold Vehicles.set_pathlosses, Vehicles.get_pathlosses.
  rewrite (get_idxs_Some _ _ _ Hkey). simpl.
  rewrite put_plain by done. simpl.
  eexists. split; [done|].
  rewrite bool_decide_false by done.
  unfold Vehicles.get_idxs. simpl. rewrite Hkey. simpl.
  rewrite take_scatter by done. split_and!; [done|done|apply length_scatter].
Qed.

Lemma set_get_pathlosses_witness :
  let v := Vehicles.add_key (Vehicles.allocate (Vehicles.init [] None 0) 3) "par" (Arr [1]) in
  ∃ v', Vehicles.set_pathlosses v "par" [PInf] = Ok v'
        ∧ Vehicles.get_pathlosses v' (Some "par") = Ok (Arr [PInf])
        ∧ Vehicles.get_pathlosses v' (Some "all") = Ok (Arr (Vehicles.pathlosses v'))
        ∧ length (Vehicles.pathlosses v') = length (Vehicles.pathlosses v).
Proof.
  intros v. apply (set_get_pathlosses v "par" [1] [PInf]).
  - done.
  - done.
  - repeat constructor; unfold plain_index; simpl; lia.
  - compute_done.
  - done.
Defined.

(** A key named ["all"] is written through its indices but read as the
    whole array. *)
Lemma all_key_not_round_trip :
  let v := Vehicles.add_key (Vehicles.allocate (Vehicles.init [] None 0) 2) "all" (Arr [1]) in
  ∃ v', Vehicles.set_pathlosses v "all" [Fin 5] = Ok v'
        ∧ Vehicles.get_pathlosses v' (Some "all") = Ok (Arr [Fin 0; Fin 5]).
Proof. simpl. eexists. split; reflexivity. Qed.

End store_round_trips.

(** ** Choosing streets *)

Section choose_streets.

Context {smp : Sampling}.

(** X6: what [choose_random_streets] refuses before any street is drawn.
    A negative count fails with [ValueError] at [np.zeros(count)],
    whatever the street lengths are; and without streets every count of
    at least one fails with [ValueError] in [np.random.choice]. *)
Theorem choose_random_streets_refuses (lengths : list Q) (count : Z) (g : rng) :
  (count < 0 →
   choose_random_streets lengths count g
   = Raise (ValueError "negative dimensions are not allowed"))
  ∧ (lengths = [] → 1 ≤ count →
     ∃ msg, choose_random_streets lengths count g = Raise (ValueError msg)).
Proof.
  unfold choose_random_streets, np_zeros_int. split.
  - intros Hneg. by rewrite bool_decide_true.
  - intros -> Hcount. rewrite bool_decide_false by lia. simpl.
    unfold choice. rewrite bool_decide_true by (split; [done|lia]). by eexists.
Qed.

End choose_streets.

Lemma choose_random_streets_refuses_witness :
  @choose_random_streets Example.sampling [400; 200]%Q (-1) Example.gen
  = Raise (ValueError "negative dimensions are not allowed")
  ∧ ∃ msg, @choose_random_streets Example.sampling [] 5 Example.gen = Raise (ValueError msg).
Proof.
  split.
  - destruct (@choose_random_streets_refuses Example.sampling [400; 200]%Q (-1) Example.gen)
      as [Hneg _].
    apply Hneg. lia.
  - destruct (@choose_random_streets_refuses Example.sampling [] 5 Example.gen)
      as [_ Hempty].
    apply Hempty; [done|lia].
Defined.
